(** * Thermotron 3800: the operating-mode decoder

    A shallow embedding of the two static methods of
    [pymeasure/instruments/thermotron/thermotron3800.py] that decode the
    answer of the [MODE?] query:

    - [get_bit_array_from_int] (lines 127-139), the [while] loop that splits
      an integer into its set bits;
    - [__translate_mode] (lines 141-153), which folds those bits into a
      [Thermotron3800Mode] flag.

    Python integers are unbounded, so they are [Z]; [&], [|] and [<<] are
    [Z.land], [Z.lor] and [Z.shiftl].  The [IntFlag] operations the decoder
    calls ([Thermotron3800Mode(x)], [x in Thermotron3800Mode], [|]) are
    modelled after the [enum] module of CPython 3.8 to 3.10, the interpreters
    current when the driver was written; they live in a state and exception
    monad, because the constructor call memoises pseudo-members in the class
    and because each of them can raise. *)

From Stdlib Require Import ZArith Lia List Bool Ascii String.
From Equations Require Import Equations.
From stdpp Require Import gmap strings sorting.
Import ListNotations.
Local Open Scope Z_scope.

(** ** The bit-splitting loop *)

Module BitArray.

(** The two local variables the [while] loop of [get_bit_array_from_int]
    updates. *)
Record loop_state := LoopState { mask : Z; mode_bits : list Z }.

(** [while mask <= mode_int:] *)
Definition loop_guard (mode_int : Z) (s : loop_state) : bool :=
  mask s <=? mode_int.

(** One pass through the loop body:
    [bit = (mode_int & mask); mask = mask << 1;
     if bit != 0: mode_bits.append(bit)]. *)
Definition loop_body (mode_int : Z) (s : loop_state) : loop_state :=
  let bit := Z.land mode_int (mask s) in
  let mask' := Z.shiftl (mask s) 1 in
  if negb (bit =? 0) then LoopState mask' (mode_bits s ++ [bit])
  else LoopState mask' (mode_bits s).

(** [mode_bits = []; mask = 0x1] *)
Definition loop_init : loop_state := LoopState 1 [].

(** The loop is run by well-founded recursion: while the guard holds, the
    distance between the binary lengths of [mode_int] and [mask] shrinks. *)
Definition loop_measure (mode_int : Z) (s : loop_state) : nat :=
  Z.to_nat (Z.log2 mode_int + 1 - Z.log2 (mask s)).

Equations? while_loop (mode_int : Z) (s : loop_state) (Hpos : 0 < mask s)
  : loop_state by wf (loop_measure mode_int s) lt :=
  while_loop mode_int s Hpos
    with Sumbool.sumbool_of_bool (loop_guard mode_int s) := {
    | left Hg => while_loop mode_int (loop_body mode_int s) _
    | right Hg => s }.
Proof.
  all: assert (Hm : mask (loop_body mode_int s) = 2 * mask s)
    by (unfold loop_body; destruct (negb _); simpl;
        rewrite Z.shiftl_mul_pow2 by lia; lia).
  - lia.
  - unfold loop_guard in Hg. apply Z.leb_le in Hg.
    unfold loop_measure. rewrite Hm, Z.log2_double by lia.
    pose proof (Z.log2_le_mono _ _ Hg). lia.
Qed.

(** [get_bit_array_from_int(mode_int)]: run the loop from
    [mode_bits = [], mask = 1] and return [mode_bits]. *)
Definition get_bit_array_from_int (mode_int : Z) : list Z :=
  mode_bits (while_loop mode_int loop_init eq_refl).

(** *** Reference description of the result *)

(** Bit positions [0, 1, ..., k-1]. *)
Definition positions (k : nat) : list Z := map Z.of_nat (seq 0 k).

(** The powers of two of the positions below [k] at which [n] has a set
    bit, lowest first. *)
Definition set_bits_below (n : Z) (k : nat) : list Z :=
  map (fun i => 2 ^ i) (List.filter (Z.testbit n) (positions k)).

(** Number of positions [p] with [1 << p <= n]. *)
Definition scan_length (n : Z) : nat :=
  if n <=? 0 then O else S (Z.to_nat (Z.log2 n)).

Definition sum_list (l : list Z) : Z := fold_right Z.add 0 l.

Definition or_list (l : list Z) : Z := fold_left Z.lor l 0.

End BitArray.

(** ** Python values, exceptions and the interpreter monad *)

Module Py.

(** The exceptions the modelled operations can raise. *)
Inductive exn : Type := ValueError | TypeError | AttributeError.

(** An instance of an [IntFlag] class: an [int] carrying [_name_] (which is
    [None] for a pseudo-member) and [_value_]. *)
Record IntFlag := MkFlag { _name_ : option string; _value_ : Z }.

(** The objects the decoder handles. *)
Inductive value : Type :=
| VInt (z : Z)
| VStr (s : string)
| VFlag (m : IntFlag).

(** The mutable part of an enum class: [_member_names_] and [_member_map_]
    are filled when the class is created, [_value2member_map_] also receives
    the pseudo-members created later. *)
Record EnumClass := MkClass {
  _member_names_ : list string;
  _member_map_ : gmap string IntFlag;
  _value2member_map_ : gmap Z IntFlag }.

(** Computations read and write the enum class and may raise. *)
Definition M (A : Type) : Type := EnumClass -> (exn + A) * EnumClass.

#[global] Instance M_ret : MRet M := fun A a c => (inr a, c).

#[global] Instance M_bind : MBind M := fun A B f m c =>
  match m c with
  | (inl e, c') => (inl e, c')
  | (inr a, c') => f a c'
  end.

Definition raise {A} (e : exn) : M A := fun c => (inl e, c).

Definition get_class : M EnumClass := fun c => (inr c, c).

Definition put_class (c' : EnumClass) : M unit := fun _ => (inr tt, c').

(** [for x in l: s = body(s, x)] *)
Fixpoint for_each {A S} (l : list A) (body : S -> A -> M S) (s : S) : M S :=
  match l with
  | [] => mret s
  | x :: l' => s' ← body s x; for_each l' body s'
  end.

(** [a != z] for an integer literal [z]: [IntFlag] inherits the comparison
    of [int]; a [str] never equals an [int]. *)
Definition ne_int (a : value) (z : Z) : bool :=
  match a with
  | VInt x => negb (x =? z)
  | VFlag m => negb (_value_ m =? z)
  | VStr _ => true
  end.

End Py.

(** ** [enum.IntFlag], CPython 3.8 to 3.10 *)

Module Enum.
Import Py.

(** Class creation ([EnumMeta.__new__]): each definition [NAME = value]
    becomes a member registered under its name and, unless an earlier member
    already has the value (an alias), under its value. *)
Definition add_member (c : EnumClass) (d : string * Z) : EnumClass :=
  let '(name, v) := d in
  match _value2member_map_ c !! v with
  | Some canonical =>
      MkClass (_member_names_ c) (<[name := canonical]> (_member_map_ c))
              (_value2member_map_ c)
  | None =>
      let m := MkFlag (Some name) v in
      MkClass (_member_names_ c ++ [name]) (<[name := m]> (_member_map_ c))
              (<[v := m]> (_value2member_map_ c))
  end.

Definition make_class (defs : list (string * Z)) : EnumClass :=
  fold_left add_member defs (MkClass [] ∅ ∅).

(** [dict.setdefault] on [_value2member_map_]. *)
Definition setdefault (v : Z) (m : IntFlag) : M IntFlag :=
  c ← get_class;
  match _value2member_map_ c !! v with
  | Some old => mret old
  | None =>
      _ ← put_class (MkClass (_member_names_ c) (_member_map_ c)
                             (<[v := m]> (_value2member_map_ c)));
      mret m
  end.

(** [IntFlag._create_pseudo_member_(value)]: an unnamed instance for a value
    that has no member, memoised in [_value2member_map_].  (The interpreter
    also memoises an unnamed instance for every single bit of [value] that no
    member covers; for the values built by the decoder, which are [0], one
    bit, or a union of members, there is no such bit besides [value].)
    This is the behaviour of CPython 3.8 to 3.10.  CPython 3.11 gives a
    combination of members the joined name of its members and memoises
    fewer values; the integer values of the instances, and the outcome of
    [member in cls], are the same there. *)
Definition _create_pseudo_member_ (v : Z) : M IntFlag :=
  c ← get_class;
  match _value2member_map_ c !! v with
  | Some pseudo_member => mret pseudo_member
  | None => setdefault v (MkFlag None v)
  end.

(** [IntFlag._missing_(value)] *)
Definition _missing_ (x : value) : M IntFlag :=
  match x with
  | VInt z => _create_pseudo_member_ z
  | VFlag m => _create_pseudo_member_ (_value_ m)
  | VStr _ => raise ValueError
  end.

(** [cls(value)], that is [EnumMeta.__call__] and [Enum.__new__]: an instance
    of the class is returned as it is, a registered value gives its member,
    anything else goes to [_missing_]. *)
Definition call (x : value) : M IntFlag :=
  match x with
  | VFlag m => mret m
  | VInt z =>
      c ← get_class;
      match _value2member_map_ c !! z with
      | Some m => mret m
      | None => _missing_ x
      end
  | VStr _ => _missing_ x
  end.

(** [member in cls], that is [EnumMeta.__contains__]:
    [TypeError] unless [member] is an enum instance, otherwise
    [isinstance(member, cls) and member._name_ in cls._member_map_]. *)
Definition contains (x : value) : M bool :=
  match x with
  | VFlag m =>
      c ← get_class;
      mret (match _name_ m with
            | Some name => bool_decide (is_Some (_member_map_ c !! name))
            | None => false
            end)
  | VInt _ | VStr _ => raise TypeError
  end.

(** [cls.NAME], that is [EnumMeta.__getattr__]. *)
Definition getattr (name : string) : M IntFlag :=
  c ← get_class;
  match _member_map_ c !! name with
  | Some m => mret m
  | None => raise AttributeError
  end.

(** [IntFlag.__or__(self, other)], also installed as [__ror__]:
    [self.__class__(self._value_ | self.__class__(other)._value_)]. *)
Definition __or__ (self : IntFlag) (other : value) : M value :=
  match other with
  | VStr _ => raise TypeError
  | VInt _ | VFlag _ =>
      o ← call other;
      result ← call (VInt (Z.lor (_value_ self) (_value_ o)));
      mret (VFlag result)
  end.

(** [a | b]: between two plain integers it is [int.__or__]; as soon as one
    operand is a flag, the flag's [__or__] (or [__ror__], which Python tries
    first because [IntFlag] is a subclass of [int]) computes the result. *)
Definition or_ (a b : value) : M value :=
  match a, b with
  | VInt x, VInt y => mret (VInt (Z.lor x y))
  | VFlag m, _ => __or__ m b
  | VInt _, VFlag m => __or__ m a
  | _, _ => raise TypeError
  end.

End Enum.

(** ** The driver class *)

Module Thermotron3800.
Import Py Enum BitArray.

(** The body of [class Thermotron3800Mode(IntFlag)], in definition order. *)
Definition Thermotron3800Mode_body : list (string * Z) :=
  [ ("PROGRAM_MODE", 1); ("EDIT_MODE_STOP", 2); ("VIEW_PROGRAM_MODE", 4);
    ("EDIT_MODE_HOLD", 8); ("MANUAL_MODE", 16); ("DELAYED_START_MODE", 32);
    ("UNUSED", 64); ("CALIBRATION_MODE", 128); ("UNKNOWN_MODE", -1) ]%string.

(** The class as it is right after its definition has been executed. *)
Definition Thermotron3800Mode : EnumClass :=
  make_class Thermotron3800Mode_body.

Definition PROGRAM_MODE := MkFlag (Some "PROGRAM_MODE"%string) 1.
Definition EDIT_MODE_STOP := MkFlag (Some "EDIT_MODE_STOP"%string) 2.
Definition VIEW_PROGRAM_MODE := MkFlag (Some "VIEW_PROGRAM_MODE"%string) 4.
Definition EDIT_MODE_HOLD := MkFlag (Some "EDIT_MODE_HOLD"%string) 8.
Definition MANUAL_MODE := MkFlag (Some "MANUAL_MODE"%string) 16.
Definition DELAYED_START_MODE := MkFlag (Some "DELAYED_START_MODE"%string) 32.
Definition UNUSED := MkFlag (Some "UNUSED"%string) 64.
Definition CALIBRATION_MODE := MkFlag (Some "CALIBRATION_MODE"%string) 128.
Definition UNKNOWN_MODE := MkFlag (Some "UNKNOWN_MODE"%string) (-1).

Section Decoder.

(** The builtin [int] applied to a [str]: the integer the text denotes, or
    [None] where [int] raises [ValueError]. *)
Variable int_of_str : string -> option Z.

(** [int(x)] *)
Definition int (x : value) : M Z :=
  match x with
  | VInt z => mret z
  | VFlag m => mret (_value_ m)
  | VStr s =>
      match int_of_str s with
      | Some z => mret z
      | None => raise ValueError
      end
  end.

(** One pass through the [for bit in mode_bits] loop of [__translate_mode]. *)
Definition translate_bit (mode : value) (bit : Z) : M value :=
  member ← call (VInt bit);
  known ← contains (VFlag member);
  if known : bool then
    flag ← call (VInt bit);
    or_ mode (VFlag flag)
  else
    unknown ← getattr "UNKNOWN_MODE";
    or_ mode (VFlag unknown).

(** [__translate_mode(mode_coded_integer)] *)
Definition __translate_mode (mode_coded_integer : value) : M value :=
  n ← int mode_coded_integer;
  let mode_bits := get_bit_array_from_int n in
  mode ← for_each mode_bits translate_bit (VInt 0);
  if ne_int mode 0 then mret mode
  else
    unknown ← getattr "UNKNOWN_MODE";
    mret (VFlag unknown).

End Decoder.

(** *** The class invariant *)

(** The name under which the class body defines a value, if it does. *)
Definition name_of_value (v : Z) : option string :=
  match List.find (fun d => snd d =? v) Thermotron3800Mode_body with
  | Some d => Some (fst d)
  | None => None
  end.

Definition is_named (v : Z) : bool :=
  match name_of_value v with Some _ => true | None => false end.

(** The instance that stands for a value: the member defined with it, or
    else the unnamed pseudo-member. *)
Definition instance_of (v : Z) : IntFlag := MkFlag (name_of_value v) v.

(** The states the class can be in after its definition: the members are
    those of the class body, and whatever else is registered under a value
    is the pseudo-member of that value. *)
Record class_ok (c : EnumClass) : Prop := ClassOk {
  ok_names : _member_names_ c = _member_names_ Thermotron3800Mode;
  ok_members : _member_map_ c = _member_map_ Thermotron3800Mode;
  ok_defined : _value2member_map_ Thermotron3800Mode ⊆ _value2member_map_ c;
  ok_values : forall v m,
      _value2member_map_ c !! v = Some m -> m = instance_of v }.

(** [c'] is [c] with further pseudo-members registered. *)
Record grows (c c' : EnumClass) : Prop := Grows {
  grows_names : _member_names_ c' = _member_names_ c;
  grows_members : _member_map_ c' = _member_map_ c;
  grows_values : _value2member_map_ c ⊆ _value2member_map_ c' }.

(** [m] returns [a] without raising, from every good state of the class,
    and leaves the class in a good state that has only grown; run again in
    that state, or in one grown from it, [m] returns [a] and changes
    nothing. *)
Definition returns {A} (m : M A) (a : A) : Prop :=
  forall c, class_ok c ->
    exists c',
      m c = (inr a, c') /\ class_ok c' /\ grows c c' /\
      forall c'', class_ok c'' -> grows c' c'' -> m c'' = (inr a, c'').

(** *** The decoder on integers, value by value *)

(** What one pass of the [for] loop does to the integer value of [mode]. *)
Definition fold_value (a bit : Z) : Z :=
  Z.lor a (if is_named bit then bit else -1).

(** The integer value of the flag that [__translate_mode] returns. *)
Definition decode_value (n : Z) : Z :=
  let v := fold_left fold_value (get_bit_array_from_int n) 0 in
  if v =? 0 then -1 else v.

(** [mode] when the [for] loop is left. *)
Definition mode_after (bits : list Z) : value :=
  match bits with
  | [] => VInt 0
  | _ :: _ => VFlag (instance_of (fold_left fold_value bits 0))
  end.

(** The eight operating modes, bit 0 to bit 7. *)
Definition known_flags : list IntFlag :=
  [ PROGRAM_MODE; EDIT_MODE_STOP; VIEW_PROGRAM_MODE; EDIT_MODE_HOLD;
    MANUAL_MODE; DELAYED_START_MODE; UNUSED; CALIBRATION_MODE ].

(** The operating modes whose bit is set in [n]. *)
Definition flags_in (n : Z) : list IntFlag :=
  List.filter (fun f => negb (Z.land n (_value_ f) =? 0)) known_flags.

End Thermotron3800.

(** ** A reader of status text

    The controller answers [MODE?] with plain decimal digits.  This reader
    accepts exactly the non-empty strings of ASCII digits, which [int] reads
    as the number they spell; it instantiates [int_of_str] where the model is
    run on text. *)

Module StatusText.

Definition digit_of_ascii (ch : ascii) : option Z :=
  let d := Z.of_nat (nat_of_ascii ch) - 48 in
  if (0 <=? d) && (d <=? 9) then Some d else None.

Fixpoint digits_value (acc : Z) (s : string) : option Z :=
  match s with
  | EmptyString => Some acc
  | String ch s' =>
      match digit_of_ascii ch with
      | Some d => digits_value (10 * acc + d) s'
      | None => None
      end
  end.

Definition plain_decimal (s : string) : option Z :=
  match s with
  | EmptyString => None
  | String _ _ => digits_value 0 s
  end.

End StatusText.

(** ** Commands of the driver *)

Module Driver.

Section Transport.

(** The state of the connection and the exceptions it raises belong to the
    base class [Instrument], whose [write] hands a command to the
    connection: it returns normally or raises, and leaves the connection in
    a new state either way. *)
Variable adapter : Type.
Variable io_error : Type.
Variable Instrument_write : string -> adapter -> (io_error + unit) * adapter.

(** An oven: its connection and the seconds spent in [sleep] so far. *)
Record oven := Oven { connection : adapter; slept : Z }.

(** [write(self, command)]: [super().write(command); sleep(1)].  When the
    base class raises, the [sleep] is not reached. *)
Definition write (command : string) (o : oven) : (io_error + unit) * oven :=
  match Instrument_write command (connection o) with
  | (inl e, a) => (inl e, Oven a (slept o))
  | (inr tt, a) => (inr tt, Oven a (slept o + 1))
  end.

(** [run(self)] *)
Definition run (o : oven) : (io_error + unit) * oven := write "RUNM" o.

(** [stop(self)] *)
Definition stop (o : oven) : (io_error + unit) * oven := write "STOP" o.

(** [initalize_oven(self)] *)
Definition initalize_oven (o : oven) : (io_error + unit) * oven :=
  write "INIT" o.

(** The three commands, to speak about sequences of calls. *)
Inductive method : Type := Run | Stop | Initalize_oven.

Definition invoke (m : method) : oven -> (io_error + unit) * oven :=
  match m with
  | Run => run
  | Stop => stop
  | Initalize_oven => initalize_oven
  end.

Definition command_of (m : method) : string :=
  match m with
  | Run => "RUNM"
  | Stop => "STOP"
  | Initalize_oven => "INIT"
  end.

(** The calls [ms] one after the other; an exception ends the sequence. *)
Fixpoint invoke_all (ms : list method) (o : oven) : (io_error + unit) * oven :=
  match ms with
  | [] => (inr tt, o)
  | m :: ms' =>
      match invoke m o with
      | (inl e, o') => (inl e, o')
      | (inr tt, o') => invoke_all ms' o'
      end
  end.

(** The commands handed to the connection one after the other, up to the
    first that raises; the number of those that returned is counted. *)
Fixpoint send_all (commands : list string) (a : adapter)
  : (io_error + unit) * adapter * Z :=
  match commands with
  | [] => (inr tt, a, 0)
  | command :: commands' =>
      match Instrument_write command a with
      | (inl e, a') => (inl e, a', 0)
      | (inr tt, a') =>
          let '(r, a'', sent) := send_all commands' a' in (r, a'', sent + 1)
      end
  end.

End Transport.

End Driver.

(** ** Lists of bit positions *)

Module Positions.

(** The powers of two at the positions [js]. *)
Definition powers (js : list Z) : list Z := map (fun j => 2 ^ j) js.

End Positions.

(** * Properties *)

(** ** The bit-splitting loop *)

Module BitArrayFacts.
Import BitArray.

Lemma loop_body_mask mode_int s :
  mask (loop_body mode_int s) = 2 * mask s.
Proof.
  unfold loop_body. destruct (negb _); simpl;
    rewrite Z.shiftl_mul_pow2 by lia; lia.
Qed.

(** Masking with a single bit keeps that bit or nothing. *)
Lemma land_pow2 n i :
  0 <= i -> Z.land n (2 ^ i) = if Z.testbit n i then 2 ^ i else 0.
Proof.
  intros Hi. apply Z.bits_inj'. intros j Hj.
  rewrite Z.land_spec, Z.pow2_bits_eqb by lia.
  destruct (Z.eqb_spec i j) as [->|Hne].
  - destruct (Z.testbit n j) eqn:E; simpl.
    + rewrite Z.pow2_bits_eqb, Z.eqb_refl by lia. reflexivity.
    + rewrite Z.bits_0. reflexivity.
  - rewrite andb_false_r.
    destruct (Z.testbit n i).
    + rewrite Z.pow2_bits_eqb by lia. symmetry. now apply Z.eqb_neq.
    + rewrite Z.bits_0. reflexivity.
Qed.

Lemma positions_S k : positions (S k) = positions k ++ [Z.of_nat k].
Proof. unfold positions. rewrite seq_S, map_app. reflexivity. Qed.

Lemma set_bits_below_S n k :
  set_bits_below n (S k) =
  set_bits_below n k
    ++ (if Z.testbit n (Z.of_nat k) then [2 ^ Z.of_nat k] else []).
Proof.
  unfold set_bits_below. rewrite positions_S, List.filter_app, map_app.
  simpl. destruct (Z.testbit n (Z.of_nat k)); reflexivity.
Qed.

(** The state after [k] passes through the body. *)
Lemma iter_loop_body n k :
  Nat.iter k (loop_body n) loop_init =
  LoopState (2 ^ Z.of_nat k) (set_bits_below n k).
Proof.
  induction k as [|k IH].
  - reflexivity.
  - rewrite Nat.iter_succ, IH, set_bits_below_S.
    unfold loop_body. cbn [mask mode_bits].
    rewrite land_pow2 by lia.
    replace (Z.shiftl (2 ^ Z.of_nat k) 1) with (2 ^ Z.of_nat (S k))
      by (rewrite Z.shiftl_mul_pow2, Nat2Z.inj_succ, Z.pow_succ_r by lia;
          lia).
    destruct (Z.testbit n (Z.of_nat k)).
    + assert (2 ^ Z.of_nat k <> 0) by (apply Z.pow_nonzero; lia).
      destruct (Z.eqb_spec (2 ^ Z.of_nat k) 0); [contradiction|].
      reflexivity.
    + simpl. rewrite app_nil_r. reflexivity.
Qed.

(** The guard after [j] passes compares [2^j] with the input. *)
Lemma guard_iter n j :
  loop_guard n (Nat.iter j (loop_body n) loop_init) = (2 ^ Z.of_nat j <=? n).
Proof. rewrite iter_loop_body. reflexivity. Qed.

Lemma scan_length_spec n (p : nat) :
  (p < scan_length n)%nat <-> 2 ^ Z.of_nat p <= n.
Proof.
  unfold scan_length. destruct (Z.leb_spec n 0) as [Hn|Hn].
  - split; [lia|]. intros H.
    assert (0 < 2 ^ Z.of_nat p) by (apply Z.pow_pos_nonneg; lia). lia.
  - rewrite Z.log2_le_pow2 by lia.
    pose proof (Z.log2_nonneg n). lia.
Qed.

(** The well-founded loop is the iteration of the body up to the first
    state that fails the guard. *)
Lemma while_loop_iter n s (Hpos : 0 < mask s) :
  exists k : nat,
    while_loop n s Hpos = Nat.iter k (loop_body n) s /\
    loop_guard n (Nat.iter k (loop_body n) s) = false /\
    forall j : nat, (j < k)%nat ->
      loop_guard n (Nat.iter j (loop_body n) s) = true.
Proof.
  funelim (while_loop n s Hpos).
  - destruct H as (k & Hk & Hstop & Hrun).
    exists (S k). rewrite !Nat.iter_succ_r. repeat split; try assumption.
    intros [|j] Hj; [exact Hg|].
    rewrite Nat.iter_succ_r. apply Hrun. lia.
  - exists O. repeat split; try assumption. intros j Hj. lia.
Qed.

(** Closed form of the result. *)
Lemma get_bit_array_from_int_eq n :
  get_bit_array_from_int n = set_bits_below n (scan_length n).
Proof.
  unfold get_bit_array_from_int.
  destruct (while_loop_iter n loop_init eq_refl) as (k & -> & Hstop & Hrun).
  rewrite iter_loop_body. cbn [mode_bits].
  f_equal.
  rewrite guard_iter in Hstop. apply Z.leb_gt in Hstop.
  destruct (Nat.lt_trichotomy k (scan_length n)) as [Hlt|[Heq|Hgt]].
  - apply scan_length_spec in Hlt. lia.
  - exact Heq.
  - specialize (Hrun _ Hgt). rewrite guard_iter in Hrun.
    apply Z.leb_le, scan_length_spec in Hrun. lia.
Qed.

Lemma In_set_bits_below n k x :
  In x (set_bits_below n k) <->
  exists i, 0 <= i < Z.of_nat k /\ Z.testbit n i = true /\ x = 2 ^ i.
Proof.
  unfold set_bits_below, positions. rewrite in_map_iff. split.
  - intros (i & <- & Hi). apply filter_In in Hi as [Hi Hbit].
    apply in_map_iff in Hi as (j & <- & Hj). apply in_seq in Hj.
    exists (Z.of_nat j). repeat split; try assumption; lia.
  - intros (i & Hi & Hbit & ->). exists i. split; [reflexivity|].
    apply filter_In. split; [|assumption].
    apply in_map_iff. exists (Z.to_nat i). split; [lia|].
    apply in_seq. lia.
Qed.

Lemma set_bits_below_lt n k x :
  In x (set_bits_below n k) -> 0 < x < 2 ^ Z.of_nat k.
Proof.
  intros (i & Hi & _ & ->)%In_set_bits_below. split.
  - apply Z.pow_pos_nonneg; lia.
  - apply Z.pow_lt_mono_r; lia.
Qed.

Lemma set_bits_below_sorted n k :
  StronglySorted Z.lt (set_bits_below n k).
Proof.
  induction k as [|k IH]; [constructor|].
  rewrite set_bits_below_S. apply StronglySorted_app_2; [|exact IH|].
  - intros x1 x2 H1%list_elem_of_In H2.
    apply set_bits_below_lt in H1.
    destruct (Z.testbit n (Z.of_nat k)).
    + apply list_elem_of_singleton in H2 as ->. lia.
    + inversion H2.
  - destruct (Z.testbit n (Z.of_nat k)); repeat constructor.
Qed.

Lemma sum_list_app l1 l2 : sum_list (l1 ++ l2) = sum_list l1 + sum_list l2.
Proof.
  unfold sum_list. induction l1 as [|x l1 IH]; simpl; [reflexivity|].
  rewrite IH. lia.
Qed.

(** Adding the next bit to the low part of a number. *)
Lemma mod_pow2_succ n (k : nat) :
  n mod 2 ^ Z.of_nat (S k) =
  n mod 2 ^ Z.of_nat k + (if Z.testbit n (Z.of_nat k) then 2 ^ Z.of_nat k else 0).
Proof.
  assert (Hp : 0 < 2 ^ Z.of_nat k) by (apply Z.pow_pos_nonneg; lia).
  rewrite Nat2Z.inj_succ, Z.pow_succ_r, (Z.mul_comm 2) by lia.
  rewrite Z.rem_mul_r by lia. f_equal.
  destruct (Z.testbit n (Z.of_nat k)) eqn:E.
  - apply Z.testbit_true in E; [|lia]. rewrite E. lia.
  - apply Z.testbit_false in E; [|lia]. rewrite E. lia.
Qed.

(** The collected bits below position [k] add up to the low [k] bits. *)
Lemma sum_set_bits_below n k :
  sum_list (set_bits_below n k) = n mod 2 ^ Z.of_nat k.
Proof.
  induction k as [|k IH].
  - simpl. rewrite Z.mod_1_r. reflexivity.
  - rewrite set_bits_below_S, sum_list_app, IH, mod_pow2_succ.
    destruct (Z.testbit n (Z.of_nat k)); simpl; lia.
Qed.

Lemma scan_length_covers n : 0 <= n -> n < 2 ^ Z.of_nat (scan_length n).
Proof.
  intros Hn. unfold scan_length. destruct (Z.leb_spec n 0).
  - simpl. lia.
  - apply Z.log2_lt_pow2; [lia|]. pose proof (Z.log2_nonneg n). lia.
Qed.

Lemma testbit_scan_length n i :
  0 <= n -> 0 <= i -> Z.testbit n i = true -> i < Z.of_nat (scan_length n).
Proof.
  intros Hn Hi Hbit.
  destruct (Z.lt_ge_cases i (Z.of_nat (scan_length n))) as [|Hge]; [assumption|].
  exfalso.
  assert (Hlow : n mod 2 ^ i = n).
  { apply Z.mod_small. split; [lia|].
    eapply Z.lt_le_trans; [apply scan_length_covers; lia|].
    apply Z.pow_le_mono_r; lia. }
  rewrite <- Hlow, Z.mod_pow2_bits_high in Hbit by lia. discriminate.
Qed.

(** A single bit is returned as it is. *)
Lemma get_bit_array_from_int_pow2 k :
  0 <= k -> get_bit_array_from_int (2 ^ k) = [2 ^ k].
Proof.
  intros Hk.
  assert (Hp : 0 < 2 ^ k) by (apply Z.pow_pos_nonneg; lia).
  rewrite get_bit_array_from_int_eq. unfold scan_length.
  destruct (Z.leb_spec (2 ^ k) 0); [lia|].
  rewrite Z.log2_pow2, set_bits_below_S, Z2Nat.id by lia.
  rewrite Z.pow2_bits_true by lia.
  destruct (set_bits_below (2 ^ k) (Z.to_nat k)) as [|x l] eqn:E;
    [reflexivity|].
  assert (Hx : In x (set_bits_below (2 ^ k) (Z.to_nat k)))
    by (rewrite E; left; reflexivity).
  apply In_set_bits_below in Hx as (i & Hi & Hbit & _).
  rewrite Z.pow2_bits_false in Hbit by lia. discriminate.
Qed.

Lemma get_bit_array_from_int_nonpos n : n <= 0 -> get_bit_array_from_int n = [].
Proof.
  intros Hn. rewrite get_bit_array_from_int_eq. unfold scan_length.
  destruct (Z.leb_spec n 0); [reflexivity|lia].
Qed.

(** Claim C5.  For a non-negative input [get_bit_array_from_int] scans the
    positions [0, 1, ...] for which [1 << position <= input] and keeps the
    set bits as powers of two: the list holds exactly the powers of two set
    in the input, in strictly ascending order, and they add up to the
    input. *)
Theorem get_bit_array_from_int_set_bits (n : Z) :
  0 <= n ->
  get_bit_array_from_int n
  = mode_bits (Nat.iter (scan_length n) (loop_body n) loop_init) /\
  get_bit_array_from_int n = set_bits_below n (scan_length n) /\
  (forall p : nat,
     (p < scan_length n)%nat <-> Z.shiftl 1 (Z.of_nat p) <= n) /\
  (forall x,
     In x (get_bit_array_from_int n) <->
     exists i, 0 <= i /\ Z.testbit n i = true /\ x = 2 ^ i) /\
  StronglySorted Z.lt (get_bit_array_from_int n) /\
  sum_list (get_bit_array_from_int n) = n.
Proof.
  intros Hn. rewrite get_bit_array_from_int_eq. repeat split.
  - rewrite iter_loop_body. reflexivity.
  - rewrite Z.shiftl_1_l. apply scan_length_spec.
  - rewrite Z.shiftl_1_l. apply scan_length_spec.
  - intros (i & Hi & Hbit & ->)%In_set_bits_below. exists i.
    repeat split; [lia|assumption].
  - intros (i & Hi & Hbit & ->). apply In_set_bits_below. exists i.
    repeat split; try assumption; try lia.
    now apply testbit_scan_length.
  - apply set_bits_below_sorted.
  - rewrite sum_set_bits_below. apply Z.mod_small.
    split; [assumption|]. now apply scan_length_covers.
Qed.

Lemma get_bit_array_from_int_set_bits_witness :
  0 <= 129 /\
  get_bit_array_from_int 129 = set_bits_below 129 (scan_length 129) /\
  sum_list (get_bit_array_from_int 129) = 129.
Proof.
  pose proof (get_bit_array_from_int_set_bits 129 ltac:(lia))
    as (_ & H1 & _ & _ & _ & H2).
  split; [lia|]. exact (conj H1 H2).
Defined.

(** Claim C8.  The loop of [get_bit_array_from_int] ends for every integer
    input: the mask is [1] at first and doubles in each pass, so it is [2^j]
    after [j] passes; the guard [mask <= mode_int] holds for the first
    [scan_length mode_int] passes and fails right after them, and the bits
    collected by then are what the function returns.  For a negative input
    (and for zero) no pass is made. *)
Theorem get_bit_array_from_int_terminates (mode_int : Z) :
  (forall s, mask (loop_body mode_int s) = 2 * mask s) /\
  (forall j : nat,
     mask (Nat.iter j (loop_body mode_int) loop_init) = 2 ^ Z.of_nat j) /\
  (forall j : nat, (j < scan_length mode_int)%nat ->
     loop_guard mode_int (Nat.iter j (loop_body mode_int) loop_init) = true) /\
  loop_guard mode_int
    (Nat.iter (scan_length mode_int) (loop_body mode_int) loop_init) = false /\
  mode_bits (Nat.iter (scan_length mode_int) (loop_body mode_int) loop_init)
    = get_bit_array_from_int mode_int /\
  (mode_int < 0 -> scan_length mode_int = O).
Proof.
  repeat split.
  - apply loop_body_mask.
  - intros j. rewrite iter_loop_body. reflexivity.
  - intros j Hj. rewrite guard_iter. apply Z.leb_le.
    now apply scan_length_spec.
  - rewrite guard_iter. apply Z.leb_gt.
    destruct (Z.lt_ge_cases mode_int (2 ^ Z.of_nat (scan_length mode_int)))
      as [|Hge]; [assumption|].
    apply scan_length_spec in Hge. lia.
  - rewrite iter_loop_body, get_bit_array_from_int_eq. reflexivity.
  - intros Hneg. unfold scan_length.
    destruct (Z.leb_spec mode_int 0); [reflexivity|lia].
Qed.

Lemma get_bit_array_from_int_terminates_witness :
  loop_guard 5 (Nat.iter (scan_length 5) (loop_body 5) loop_init) = false /\
  mode_bits (Nat.iter (scan_length 5) (loop_body 5) loop_init)
  = get_bit_array_from_int 5.
Proof.
  pose proof (get_bit_array_from_int_terminates 5) as (_ & _ & _ & H1 & H2 & _).
  exact (conj H1 H2).
Defined.

End BitArrayFacts.

(** ** The enum class *)

Module EnumFacts.
Import Py Enum BitArray Thermotron3800.

Lemma grows_refl c : grows c c.
Proof. split; reflexivity. Qed.

Lemma grows_trans c1 c2 c3 : grows c1 c2 -> grows c2 c3 -> grows c1 c3.
Proof.
  intros [N1 M1 V1] [N2 M2 V2]. split.
  - congruence.
  - congruence.
  - etrans; eassumption.
Qed.

(** A computation that only reads the class. *)
Lemma returns_reader {A} (m : M A) (a : A) :
  (forall c, class_ok c -> m c = (inr a, c)) -> returns m a.
Proof.
  intros Hm c Hc. exists c. auto using grows_refl.
Qed.

Lemma returns_ret {A} (a : A) : returns (mret a) a.
Proof. apply returns_reader. reflexivity. Qed.

Lemma returns_bind {A B} (m : M A) (f : A -> M B) a b :
  returns m a -> returns (f a) b -> returns (m ≫= f) b.
Proof.
  intros Hm Hf c Hc.
  destruct (Hm c Hc) as (c1 & E1 & Hc1 & G1 & S1).
  destruct (Hf c1 Hc1) as (c2 & E2 & Hc2 & G2 & S2).
  exists c2. unfold mbind, M_bind. rewrite E1.
  split; [exact E2|]. split; [exact Hc2|].
  split; [eauto using grows_trans|].
  intros c'' Hc'' G. rewrite (S1 c'') by eauto using grows_trans.
  now apply S2.
Qed.

(** The class body, value by value. *)
Lemma name_of_value_cases v :
  (name_of_value v = None /\ ~ In v [1; 2; 4; 8; 16; 32; 64; 128; -1]) \/
  (exists name,
     name_of_value v = Some name /\
     In v [1; 2; 4; 8; 16; 32; 64; 128; -1] /\
     _value2member_map_ Thermotron3800Mode !! v = Some (MkFlag (Some name) v) /\
     _member_map_ Thermotron3800Mode !! name = Some (MkFlag (Some name) v)).
Proof.
  assert (Hdefined : forall k,
    In k [1; 2; 4; 8; 16; 32; 64; 128; -1] ->
    exists name,
      name_of_value k = Some name /\
      _value2member_map_ Thermotron3800Mode !! k = Some (MkFlag (Some name) k) /\
      _member_map_ Thermotron3800Mode !! name = Some (MkFlag (Some name) k)).
  { intros k Hk. cbn [In] in Hk.
    repeat (destruct Hk as [<-|Hk];
            [eexists; split; [reflexivity|split; vm_compute; reflexivity]|]).
    contradiction. }
  destruct (In_dec Z.eq_dec v [1; 2; 4; 8; 16; 32; 64; 128; -1]) as [Hin|Hout].
  - right. destruct (Hdefined v Hin) as (name & ? & ? & ?). eauto.
  - left. split; [|exact Hout].
    unfold name_of_value, Thermotron3800Mode_body. cbn [List.find snd].
    cbn [In] in Hout.
    repeat match goal with
    | |- context [?a =? v] => destruct (Z.eqb_spec a v); [tauto|]
    end.
    reflexivity.
Qed.

Lemma class_lookup_value v m :
  _value2member_map_ Thermotron3800Mode !! v = Some m -> m = instance_of v.
Proof.
  intros H. apply elem_of_map_to_list in H.
  set (l := map_to_list _) in H. vm_compute in l. subst l.
  repeat (apply elem_of_cons in H as [H|H];
          [injection H as -> ->; reflexivity|]).
  inversion H.
Qed.

Lemma Thermotron3800Mode_ok : class_ok Thermotron3800Mode.
Proof.
  split; try reflexivity. apply class_lookup_value.
Qed.

(** The nine constants are the members the class holds under their names
    and values. *)
Lemma Thermotron3800Mode_members :
  Forall (fun f =>
            exists name,
              _name_ f = Some name /\
              _member_map_ Thermotron3800Mode !! name = Some f /\
              _value2member_map_ Thermotron3800Mode !! _value_ f = Some f)
         (known_flags ++ [UNKNOWN_MODE]).
Proof.
  repeat constructor;
    (eexists; split; [reflexivity|split; vm_compute; reflexivity]).
Qed.

(** [cls(z)] answers the instance that stands for [z]. *)
Lemma call_int_registered z m c :
  _value2member_map_ c !! z = Some m -> call (VInt z) c = (inr m, c).
Proof.
  intros E. unfold call, mbind, M_bind, get_class. rewrite E. reflexivity.
Qed.

Lemma call_int_fresh z c :
  _value2member_map_ c !! z = None ->
  call (VInt z) c =
  (inr (MkFlag None z),
   MkClass (_member_names_ c) (_member_map_ c)
           (<[z := MkFlag None z]> (_value2member_map_ c))).
Proof.
  intros E.
  unfold call, _missing_, _create_pseudo_member_, setdefault, mbind,
    M_bind, get_class, put_class.
  repeat (rewrite E; cbn beta). reflexivity.
Qed.

Lemma call_int z : returns (call (VInt z)) (instance_of z).
Proof.
  intros c Hc.
  destruct (_value2member_map_ c !! z) as [m|] eqn:E.
  - exists c. rewrite (ok_values c Hc _ _ E) in E.
    split; [now apply call_int_registered|].
    split; [assumption|]. split; [apply grows_refl|].
    intros c'' _ G. apply call_int_registered.
    exact (lookup_weaken _ _ _ _ E (grows_values _ _ G)).
  - rewrite (call_int_fresh z c E).
    assert (Hname : instance_of z = MkFlag None z).
    { destruct (name_of_value_cases z) as [[Hn _]|(name & _ & _ & Hv & _)].
      - unfold instance_of. rewrite Hn. reflexivity.
      - pose proof (lookup_weaken _ _ _ _ Hv (ok_defined c Hc)). congruence. }
    eexists. split; [rewrite Hname; reflexivity|].
    destruct Hc as [Hn Hm Hd Hv].
    split; [|split].
    + split; cbn [_member_names_ _member_map_ _value2member_map_];
        try assumption.
      * etrans; [exact Hd|]. now apply insert_subseteq.
      * intros v m. rewrite lookup_insert. case_decide.
        -- intros [= <-]. subst v. symmetry. exact Hname.
        -- apply Hv.
    + split; cbn [_member_names_ _member_map_ _value2member_map_];
        try reflexivity.
      now apply insert_subseteq.
    + intros c'' _ G. rewrite Hname. apply call_int_registered.
      apply (lookup_weaken _ _ _ _ (lookup_insert_eq _ z _)
                           (grows_values _ _ G)).
Qed.

(** [cls(member)] is [member]. *)
Lemma call_flag m : returns (call (VFlag m)) m.
Proof. apply returns_ret. Qed.

(** [cls(z) in cls] tells whether the class body defines [z]. *)
Lemma contains_instance z :
  returns (contains (VFlag (instance_of z))) (is_named z).
Proof.
  apply returns_reader. intros c Hc.
  unfold contains, mbind, M_bind, get_class, mret, M_ret, is_named.
  rewrite (ok_members c Hc). cbn [instance_of _name_].
  destruct (name_of_value_cases z) as [[-> _]|(name & -> & _ & _ & Hm)].
  - reflexivity.
  - rewrite Hm. reflexivity.
Qed.

Lemma getattr_UNKNOWN_MODE_run c :
  class_ok c -> getattr "UNKNOWN_MODE" c = (inr UNKNOWN_MODE, c).
Proof.
  intros Hc. unfold getattr, mbind, M_bind, get_class.
  rewrite (ok_members c Hc). vm_compute. reflexivity.
Qed.

Lemma getattr_UNKNOWN_MODE : returns (getattr "UNKNOWN_MODE") UNKNOWN_MODE.
Proof.
  apply returns_reader. apply getattr_UNKNOWN_MODE_run.
Qed.

(** What [cls(y)] answers does not depend on the pseudo-members registered
    so far. *)
Lemma call_outcome y :
  exists r, forall c, class_ok c -> fst (call y c) = r.
Proof.
  destruct y as [z|s|m].
  - exists (inr (instance_of z)). intros c Hc.
    destruct (call_int z c Hc) as (c' & -> & _). reflexivity.
  - exists (inl ValueError). reflexivity.
  - exists (inr m). reflexivity.
Qed.

(** [a | b] on two instances: the instance of the bitwise or. *)
Lemma or_flag_flag a b :
  returns (or_ (VFlag a) (VFlag b))
          (VFlag (instance_of (Z.lor (_value_ a) (_value_ b)))).
Proof.
  unfold or_, __or__.
  eapply returns_bind; [apply call_flag|].
  eapply returns_bind; [apply call_int|apply returns_ret].
Qed.

(** [z | b] for a plain integer on the left: the flag's [__ror__]. *)
Lemma or_int_flag z b :
  returns (or_ (VInt z) (VFlag b))
          (VFlag (instance_of (Z.lor (_value_ b) z))).
Proof.
  unfold or_, __or__.
  eapply returns_bind; [apply call_int|].
  eapply returns_bind; [apply call_int|apply returns_ret].
Qed.

End EnumFacts.

(** ** The decoder *)

Module DecoderFacts.
Import Py Enum BitArray Thermotron3800 BitArrayFacts EnumFacts.

(** *** Integer values *)

Lemma is_named_spec v :
  is_named v = true <-> In v [1; 2; 4; 8; 16; 32; 64; 128; -1].
Proof.
  unfold is_named.
  destruct (name_of_value_cases v) as [[-> Hv]|(name & -> & Hv & _)].
  - split; [discriminate|contradiction].
  - split; [intros _; exact Hv|reflexivity].
Qed.

(** The bit at position [k] has a member exactly when [k] is below 8. *)
Lemma is_named_pow2 (k : nat) :
  is_named (2 ^ Z.of_nat k) = (k <? 8)%nat.
Proof.
  do 8 (destruct k as [|k]; [reflexivity|]).
  change (S (S (S (S (S (S (S (S k)))))))) with (8 + k)%nat.
  replace (8 + k <? 8)%nat with false by (symmetry; apply Nat.ltb_ge; lia).
  destruct (is_named _) eqn:E; [|reflexivity].
  apply is_named_spec in E.
  assert (2 ^ 8 <= 2 ^ Z.of_nat (8 + k)) by (apply Z.pow_le_mono_r; lia).
  change (2 ^ 8) with 256 in *.
  remember (2 ^ Z.of_nat (8 + k)) as p. cbn [In] in E. lia.
Qed.

Lemma lor_pow2_above a k :
  0 <= k -> 0 <= a < 2 ^ k -> Z.lor a (2 ^ k) = a + 2 ^ k.
Proof.
  intros Hk Ha.
  assert (Hl : Z.land a (2 ^ k) = 0).
  { rewrite land_pow2 by lia.
    rewrite <- (Z.mod_small a (2 ^ k)) at 1 by lia.
    rewrite Z.mod_pow2_bits_high by lia. reflexivity. }
  rewrite <- Z.lxor_lor by exact Hl.
  symmetry. apply Z.add_nocarry_lxor. exact Hl.
Qed.

Lemma fold_value_m1 l : fold_left fold_value l (-1) = -1.
Proof.
  induction l as [|b l IH]; [reflexivity|].
  cbn [fold_left]. unfold fold_value at 2. rewrite Z.lor_m1_l. exact IH.
Qed.

(** The accumulated value after the bits below position [k]: the low [k]
    bits of the input while they fit the eight modes, [-1] afterwards. *)
Lemma fold_set_bits_below n k :
  fold_left fold_value (set_bits_below n k) 0 =
  if n mod 2 ^ Z.of_nat k <? 256 then n mod 2 ^ Z.of_nat k else -1.
Proof.
  induction k as [|k IH].
  - simpl. rewrite Z.mod_1_r. reflexivity.
  - assert (Hp : 0 < 2 ^ Z.of_nat k) by (apply Z.pow_pos_nonneg; lia).
    pose proof (Z.mod_pos_bound n _ Hp) as Hlow.
    rewrite set_bits_below_S, fold_left_app, IH, mod_pow2_succ.
    destruct (Z.testbit n (Z.of_nat k)).
    + cbn [fold_left]. unfold fold_value. rewrite is_named_pow2.
      destruct (Nat.ltb_spec k 8) as [Hk|Hk].
      * assert (2 ^ Z.of_nat k <= 2 ^ 7) by (apply Z.pow_le_mono_r; lia).
        change (2 ^ 7) with 128 in *.
        destruct (Z.ltb_spec (n mod 2 ^ Z.of_nat k) 256); [|lia].
        rewrite lor_pow2_above by lia.
        destruct (Z.ltb_spec (n mod 2 ^ Z.of_nat k + 2 ^ Z.of_nat k) 256);
          [reflexivity|lia].
      * assert (2 ^ 8 <= 2 ^ Z.of_nat k) by (apply Z.pow_le_mono_r; lia).
        change (2 ^ 8) with 256 in *.
        rewrite Z.lor_m1_r.
        destruct (Z.ltb_spec (n mod 2 ^ Z.of_nat k + 2 ^ Z.of_nat k) 256);
          [lia|reflexivity].
    + cbn [fold_left]. rewrite Z.add_0_r. reflexivity.
Qed.

(** The value of the decoded flag in closed form. *)
Lemma decode_value_eq n :
  decode_value n = if (1 <=? n) && (n <? 256) then n else -1.
Proof.
  unfold decode_value. rewrite get_bit_array_from_int_eq.
  destruct (Z.leb_spec 1 n) as [Hn|Hn]; cbn [andb].
  - rewrite fold_set_bits_below.
    rewrite (Z.mod_small n) by (split; [lia|apply scan_length_covers; lia]).
    destruct (Z.ltb_spec n 256).
    + destruct (Z.eqb_spec n 0); [lia|reflexivity].
    + reflexivity.
  - unfold scan_length. destruct (Z.leb_spec n 0); [|lia]. reflexivity.
Qed.

(** Below 256 the set bits are the values of the operating modes present:
    checked on each of the 256 codes. *)
Lemma flags_in_bits n :
  0 <= n < 256 ->
  map _value_ (flags_in n) = get_bit_array_from_int n /\
  or_list (map _value_ (flags_in n)) = n.
Proof.
  intros Hn.
  assert (Hall : forallb (fun k =>
            bool_decide (map _value_ (flags_in (Z.of_nat k))
                         = get_bit_array_from_int (Z.of_nat k))
            && (or_list (map _value_ (flags_in (Z.of_nat k))) =? Z.of_nat k))
          (seq 0 256) = true) by (vm_compute; reflexivity).
  rewrite forallb_forall in Hall.
  specialize (Hall (Z.to_nat n)). rewrite Z2Nat.id in Hall by lia.
  destruct (andb_prop _ _ (Hall ltac:(apply in_seq; lia))) as [H1 H2].
  split; [now apply bool_decide_eq_true in H1|now apply Z.eqb_eq].
Qed.

Lemma fold_value_nonzero a bit : bit <> 0 -> fold_value a bit <> 0.
Proof.
  intros Hb. unfold fold_value. rewrite Z.lor_eq_0_iff.
  destruct (is_named bit); intros [_ H]; [contradiction|discriminate].
Qed.

Lemma high_bit_not_below_256 n j :
  8 <= j -> Z.testbit n j = true -> ~ (0 <= n < 256).
Proof.
  intros Hj Hbit Hn.
  rewrite <- (Z.mod_small n (2 ^ 8)) in Hbit by (change (2 ^ 8) with 256; lia).
  rewrite Z.mod_pow2_bits_high in Hbit by lia. discriminate.
Qed.

(** *** The loop over the bits *)

Lemma translate_bit_flag a bit :
  returns (translate_bit (VFlag (instance_of a)) bit)
          (VFlag (instance_of (fold_value a bit))).
Proof.
  unfold translate_bit, fold_value.
  eapply returns_bind; [apply call_int|].
  eapply returns_bind; [apply contains_instance|].
  destruct (is_named bit).
  - eapply returns_bind; [apply call_int|]. apply or_flag_flag.
  - eapply returns_bind; [apply getattr_UNKNOWN_MODE|]. apply or_flag_flag.
Qed.

Lemma translate_bit_int bit :
  returns (translate_bit (VInt 0) bit)
          (VFlag (instance_of (fold_value 0 bit))).
Proof.
  unfold translate_bit, fold_value. rewrite Z.lor_0_l.
  eapply returns_bind; [apply call_int|].
  eapply returns_bind; [apply contains_instance|].
  destruct (is_named bit).
  - eapply returns_bind; [apply call_int|].
    pose proof (or_int_flag 0 (instance_of bit)) as H.
    change (_value_ (instance_of bit)) with bit in H.
    rewrite Z.lor_0_r in H. exact H.
  - eapply returns_bind; [apply getattr_UNKNOWN_MODE|].
    apply (or_int_flag 0 UNKNOWN_MODE).
Qed.

Lemma for_each_flag bits a :
  returns (for_each bits translate_bit (VFlag (instance_of a)))
          (VFlag (instance_of (fold_left fold_value bits a))).
Proof.
  revert a. induction bits as [|bit bits IH]; intros a.
  - apply returns_ret.
  - cbn [for_each fold_left].
    eapply returns_bind; [apply translate_bit_flag|apply IH].
Qed.

Lemma for_each_bits bits :
  returns (for_each bits translate_bit (VInt 0)) (mode_after bits).
Proof.
  destruct bits as [|bit bits].
  - apply returns_ret.
  - cbn [for_each mode_after fold_left].
    eapply returns_bind; [apply translate_bit_int|apply for_each_flag].
Qed.

Section Decoder.

Variable int_of_str : string -> option Z.

(** On an integer the decoder returns, without raising, the instance of
    [decode_value]. *)
Lemma translate_mode_int n :
  returns (__translate_mode int_of_str (VInt n))
          (VFlag (instance_of (decode_value n))).
Proof.
  unfold __translate_mode, decode_value.
  eapply returns_bind; [apply returns_ret|].
  eapply returns_bind; [apply for_each_bits|].
  destruct (get_bit_array_from_int n) as [|bit bits].
  - cbn [mode_after ne_int Z.eqb negb fold_left].
    eapply returns_bind; [apply getattr_UNKNOWN_MODE|apply returns_ret].
  - cbn [mode_after ne_int instance_of _value_].
    destruct (_ =? 0); cbn [negb].
    + eapply returns_bind; [apply getattr_UNKNOWN_MODE|apply returns_ret].
    + apply returns_ret.
Qed.

Lemma translate_mode_value n c :
  class_ok c ->
  fst (__translate_mode int_of_str (VInt n) c)
  = inr (VFlag (instance_of (decode_value n))).
Proof.
  intros Hc. destruct (translate_mode_int n c Hc) as (c' & -> & _).
  reflexivity.
Qed.

(** Without a set bit the class is not even touched. *)
Lemma translate_mode_nonpos n c :
  n <= 0 -> class_ok c ->
  __translate_mode int_of_str (VInt n) c = (inr (VFlag UNKNOWN_MODE), c).
Proof.
  intros Hn Hc. unfold __translate_mode, int, mbind, M_bind, mret, M_ret.
  rewrite get_bit_array_from_int_nonpos by assumption.
  cbn [for_each]. unfold mret, M_ret.
  change (ne_int (VInt 0) 0) with false. cbn beta iota.
  rewrite getattr_UNKNOWN_MODE_run by assumption. reflexivity.
Qed.

(** [int] reads its argument only. *)
Lemma int_run x c : int int_of_str x c = (fst (int int_of_str x c), c).
Proof.
  destruct x as [z|s|m]; cbn [int]; try reflexivity.
  destruct (int_of_str s); reflexivity.
Qed.

Lemma int_state_free x c1 c2 :
  fst (int int_of_str x c1) = fst (int int_of_str x c2).
Proof.
  destruct x as [z|s|m]; cbn [int]; try reflexivity.
  destruct (int_of_str s); reflexivity.
Qed.

(** Every run of the decoder: the outcome of [int] decides whether it raises,
    and the integer alone decides the flag; a further run, in the state
    reached or in one grown from it, gives the same and changes nothing. *)
Lemma translate_mode_run x c :
  class_ok c ->
  let r := match fst (int int_of_str x c) with
           | inl e => inl e
           | inr n => inr (VFlag (instance_of (decode_value n)))
           end in
  exists c',
    class_ok c' /\ grows c c' /\
    __translate_mode int_of_str x c = (r, c') /\
    forall c'', class_ok c'' -> grows c' c'' ->
      __translate_mode int_of_str x c'' = (r, c'').
Proof.
  intros Hc.
  assert (Hint : forall c0,
            __translate_mode int_of_str x c0 =
            match fst (int int_of_str x c) with
            | inl e => (inl e, c0)
            | inr n => __translate_mode int_of_str (VInt n) c0
            end).
  { intros c0. unfold __translate_mode at 1. unfold mbind, M_bind.
    rewrite int_run, (int_state_free x c0 c).
    destruct (fst (int int_of_str x c)); reflexivity. }
  cbv zeta. destruct (fst (int int_of_str x c)) as [e|n] eqn:E.
  - exists c. split; [assumption|]. split; [apply grows_refl|].
    split; [apply Hint|]. intros c'' _ _. apply Hint.
  - destruct (translate_mode_int n c Hc) as (c' & Hrun & Hc' & Hg & Hs).
    exists c'. split; [assumption|]. split; [assumption|].
    split; [rewrite Hint; exact Hrun|].
    intros c'' Hc'' G. rewrite Hint. now apply Hs.
Qed.

(** *** The claims about [__translate_mode] *)

(** Claim C1.  A status code whose only set bit lies above the eight
    operating modes (bit 8, that is 256, or any higher bit) decodes to
    [UNKNOWN_MODE]: the bit has no member, nothing is raised, and the bit
    does not show up in the result. *)
Theorem translate_mode_unknown_bit (k : Z) (c : EnumClass) :
  8 <= k -> class_ok c ->
  get_bit_array_from_int (2 ^ k) = [2 ^ k] /\
  is_named (2 ^ k) = false /\
  fst (__translate_mode int_of_str (VInt (2 ^ k)) c)
  = inr (VFlag UNKNOWN_MODE).
Proof.
  intros Hk Hc.
  assert (H256 : 2 ^ 8 <= 2 ^ k) by (apply Z.pow_le_mono_r; lia).
  change (2 ^ 8) with 256 in H256.
  split; [apply get_bit_array_from_int_pow2; lia|]. split.
  - rewrite <- (Z2Nat.id k) by lia. rewrite is_named_pow2.
    apply Nat.ltb_ge. lia.
  - rewrite translate_mode_value by assumption.
    rewrite decode_value_eq.
    destruct (Z.leb_spec 1 (2 ^ k)); destruct (Z.ltb_spec (2 ^ k) 256);
      try lia; reflexivity.
Qed.

(** Claim C2.  Every status code from 1 to 255 decodes along its set bits
    and loses none: the bits found are the values of the operating modes
    present in the code, the flag returned is their bitwise or, and its
    integer value is the code.  So [1] gives [PROGRAM_MODE], [3] gives
    [PROGRAM_MODE | EDIT_MODE_STOP] and [129] gives
    [PROGRAM_MODE | CALIBRATION_MODE]. *)
Theorem translate_mode_known_range (c : EnumClass) :
  class_ok c ->
  (forall n, 1 <= n <= 255 ->
     exists m,
       fst (__translate_mode int_of_str (VInt n) c) = inr (VFlag m) /\
       get_bit_array_from_int n = map _value_ (flags_in n) /\
       _value_ m = or_list (map _value_ (flags_in n)) /\
       _value_ m = n) /\
  fst (__translate_mode int_of_str (VInt 1) c) = inr (VFlag PROGRAM_MODE) /\
  fst (__translate_mode int_of_str (VInt 3) c)
  = fst (or_ (VFlag PROGRAM_MODE) (VFlag EDIT_MODE_STOP) c) /\
  fst (or_ (VFlag PROGRAM_MODE) (VFlag EDIT_MODE_STOP) c)
  = inr (VFlag (MkFlag None 3)) /\
  fst (__translate_mode int_of_str (VInt 129) c)
  = fst (or_ (VFlag PROGRAM_MODE) (VFlag CALIBRATION_MODE) c) /\
  fst (or_ (VFlag PROGRAM_MODE) (VFlag CALIBRATION_MODE) c)
  = inr (VFlag (MkFlag None 129)).
Proof.
  intros Hc.
  assert (Hval : forall n, 1 <= n <= 255 -> decode_value n = n).
  { intros n Hn. rewrite decode_value_eq.
    destruct (Z.leb_spec 1 n); destruct (Z.ltb_spec n 256); try lia.
    reflexivity. }
  repeat split.
  - intros n Hn. exists (instance_of n).
    destruct (flags_in_bits n ltac:(lia)) as [Hbits Hor].
    rewrite translate_mode_value, Hval by assumption. auto.
  - rewrite translate_mode_value by assumption.
    rewrite Hval by lia. reflexivity.
  - rewrite translate_mode_value by assumption. rewrite Hval by lia.
    destruct (or_flag_flag PROGRAM_MODE EDIT_MODE_STOP c Hc) as (c' & -> & _).
    reflexivity.
  - destruct (or_flag_flag PROGRAM_MODE EDIT_MODE_STOP c Hc) as (c' & -> & _).
    reflexivity.
  - rewrite translate_mode_value by assumption. rewrite Hval by lia.
    destruct (or_flag_flag PROGRAM_MODE CALIBRATION_MODE c Hc)
      as (c' & -> & _).
    reflexivity.
  - destruct (or_flag_flag PROGRAM_MODE CALIBRATION_MODE c Hc)
      as (c' & -> & _).
    reflexivity.
Qed.

(** Claim C3.  A status code with an operating-mode bit and a bit above
    them decodes to [UNKNOWN_MODE], whose value is [-1]: or-ing
    [UNKNOWN_MODE] into any flag gives [UNKNOWN_MODE] again, so which
    operating modes were present cannot be read off the result, any other
    code with a high bit decodes to the same flag. *)
Theorem translate_mode_mixed_bits (n i j : Z) (c : EnumClass) :
  class_ok c ->
  0 <= i < 8 -> Z.testbit n i = true ->
  8 <= j -> Z.testbit n j = true ->
  fst (__translate_mode int_of_str (VInt n) c) = inr (VFlag UNKNOWN_MODE) /\
  _value_ UNKNOWN_MODE = -1 /\
  (forall m, fst (or_ (VFlag m) (VFlag UNKNOWN_MODE) c)
             = inr (VFlag UNKNOWN_MODE)) /\
  (forall n' j', 8 <= j' -> Z.testbit n' j' = true ->
     fst (__translate_mode int_of_str (VInt n') c)
     = fst (__translate_mode int_of_str (VInt n) c)).
Proof.
  intros Hc Hi Hbi Hj Hbj.
  assert (Hhigh : forall n' j', 8 <= j' -> Z.testbit n' j' = true ->
            fst (__translate_mode int_of_str (VInt n') c)
            = inr (VFlag UNKNOWN_MODE)).
  { intros n' j' Hj' Hb'. rewrite translate_mode_value by assumption.
    rewrite decode_value_eq.
    pose proof (high_bit_not_below_256 n' j' Hj' Hb').
    destruct (Z.leb_spec 1 n'); destruct (Z.ltb_spec n' 256);
      try lia; reflexivity. }
  repeat split.
  - eapply Hhigh; eassumption.
  - intros m.
    destruct (or_flag_flag m UNKNOWN_MODE c Hc) as (c' & -> & _).
    cbn [fst _value_ UNKNOWN_MODE]. rewrite Z.lor_m1_r. reflexivity.
  - intros n' j' Hj' Hb'. rewrite (Hhigh n' j'), (Hhigh n j) by assumption.
    reflexivity.
Qed.

(** Claim C4.  The status code 0 has no set bit, the accumulation stays
    empty, and the decoder returns [UNKNOWN_MODE] (not 0, not an empty
    flag), leaving the class as it was. *)
Theorem translate_mode_zero (c : EnumClass) :
  class_ok c ->
  get_bit_array_from_int 0 = [] /\
  __translate_mode int_of_str (VInt 0) c = (inr (VFlag UNKNOWN_MODE), c).
Proof.
  intros Hc. split; [reflexivity|].
  apply translate_mode_nonpos; [lia|assumption].
Qed.

(** Claim C6.  No integer status code makes the decoder raise, and whatever
    it raises on another argument was raised by the coercion [int(...)] in
    its first line: text that [int] refuses gives [ValueError] there, text
    that [int] reads is decoded as the integer read. *)
Theorem translate_mode_raises_only_in_int (c : EnumClass) :
  class_ok c ->
  (forall z, exists m,
     fst (__translate_mode int_of_str (VInt z) c) = inr (VFlag m)) /\
  (forall x e,
     fst (__translate_mode int_of_str x c) = inl e ->
     fst (int int_of_str x c) = inl e) /\
  (forall s,
     int_of_str s = None ->
     fst (__translate_mode int_of_str (VStr s) c) = inl ValueError) /\
  (forall s z,
     int_of_str s = Some z ->
     __translate_mode int_of_str (VStr s) c
     = __translate_mode int_of_str (VInt z) c).
Proof.
  intros Hc. repeat split.
  - intros z. eexists. apply translate_mode_value. assumption.
  - intros x e He.
    destruct (translate_mode_run x c Hc) as (c' & _ & _ & Hrun & _).
    rewrite Hrun in He. cbn [fst] in He. revert He.
    destruct (fst (int int_of_str x c)); [intros [= ->]; reflexivity|discriminate].
  - intros s Hs.
    unfold __translate_mode, mbind, M_bind, int. rewrite Hs. reflexivity.
  - intros s z Hs.
    unfold __translate_mode, mbind, M_bind, int. rewrite Hs. reflexivity.
Qed.

(** Claim C7, as amended.  The decoder is deterministic: in any two good
    states of the enum class it gives the same outcome for the same
    argument, and decoding once more, in the state the first run left, gives
    that outcome again.  It is not free of side effects: a run may register
    the combinations it builds in [_value2member_map_] of the enum class.  That
    is all it changes: the class keeps its members and their names, nothing
    registered is removed or replaced, every construction [cls(y)], every
    membership test and every attribute access answers as before, and a
    second run for the same argument changes nothing at all. *)
Theorem translate_mode_deterministic (x : value) (c1 c2 : EnumClass) :
  class_ok c1 -> class_ok c2 ->
  fst (__translate_mode int_of_str x c1)
  = fst (__translate_mode int_of_str x c2) /\
  (let c1' := snd (__translate_mode int_of_str x c1) in
   __translate_mode int_of_str x c1'
   = (fst (__translate_mode int_of_str x c1), c1') /\
   class_ok c1' /\
   _member_names_ c1' = _member_names_ c1 /\
   _member_map_ c1' = _member_map_ c1 /\
   _value2member_map_ c1 ⊆ _value2member_map_ c1' /\
   (forall y, fst (call y c1') = fst (call y c1)) /\
   (forall y, fst (contains y c1') = fst (contains y c1)) /\
   (forall name, fst (getattr name c1') = fst (getattr name c1))).
Proof.
  intros H1 H2.
  destruct (translate_mode_run x c1 H1) as (c1' & Hok & Hg & E1 & Hs).
  destruct (translate_mode_run x c2 H2) as (c2' & _ & _ & E2 & _).
  rewrite E1, E2. cbn [fst snd].
  rewrite (int_state_free x c2 c1).
  split; [reflexivity|].
  split; [apply Hs; [assumption|apply grows_refl]|].
  destruct Hg as [Hn Hm Hv].
  split; [assumption|]. split; [assumption|].
  split; [assumption|]. split; [assumption|].
  split; [|split].
  - intros y. destruct (call_outcome y) as (r & Hr).
    rewrite (Hr c1'), (Hr c1) by assumption. reflexivity.
  - intros [z|s|m]; try reflexivity.
    unfold contains, mbind, M_bind, get_class. rewrite Hm. reflexivity.
  - intros name. unfold getattr, mbind, M_bind, get_class. rewrite Hm.
    destruct (_member_map_ c1 !! name); reflexivity.
Qed.

(** Claim C9.  A negative input fails the loop guard [1 <= mode_int] at
    once: [get_bit_array_from_int] returns the empty list and the decoder
    returns [UNKNOWN_MODE] without raising and without touching the
    class. *)
Theorem translate_mode_negative (n : Z) (c : EnumClass) :
  n < 0 -> class_ok c ->
  loop_guard n loop_init = false /\
  get_bit_array_from_int n = [] /\
  __translate_mode int_of_str (VInt n) c = (inr (VFlag UNKNOWN_MODE), c).
Proof.
  intros Hn Hc. repeat split.
  - apply Z.leb_gt. cbn [mask loop_init]. lia.
  - apply get_bit_array_from_int_nonpos. lia.
  - apply translate_mode_nonpos; [lia|assumption].
Qed.

(** Claim C10.  The decoder never returns the empty flag: on every integer
    the result is a flag of non-zero value, either [UNKNOWN_MODE] or the
    or of a non-empty set of operating modes; for a pass of the loop over a
    non-zero bit never leaves the value 0, and a value still 0 at the end
    is replaced by [UNKNOWN_MODE]. *)
Theorem translate_mode_never_empty (n : Z) (c : EnumClass) :
  class_ok c ->
  (exists m,
     fst (__translate_mode int_of_str (VInt n) c) = inr (VFlag m) /\
     _value_ m <> 0 /\
     (m = UNKNOWN_MODE \/
      (flags_in (_value_ m) <> [] /\
       _value_ m = or_list (map _value_ (flags_in (_value_ m)))))) /\
  (forall a bit, bit <> 0 -> fold_value a bit <> 0) /\
  (fold_left fold_value (get_bit_array_from_int n) 0 = 0 ->
   fst (__translate_mode int_of_str (VInt n) c) = inr (VFlag UNKNOWN_MODE)).
Proof.
  intros Hc. repeat split.
  - exists (instance_of (decode_value n)).
    rewrite translate_mode_value by assumption.
    split; [reflexivity|]. rewrite decode_value_eq.
    destruct (Z.leb_spec 1 n); destruct (Z.ltb_spec n 256); cbn [andb].
    + cbn [instance_of _value_]. split; [lia|]. right.
      destruct (flags_in_bits n ltac:(lia)) as [_ Hor]. split.
      * intros Hnil. rewrite Hnil in Hor. cbn in Hor. lia.
      * symmetry. exact Hor.
    + split; [discriminate|]. left. reflexivity.
    + split; [discriminate|]. left. reflexivity.
    + split; [discriminate|]. left. reflexivity.
  - apply fold_value_nonzero.
  - intros Hzero. rewrite translate_mode_value by assumption.
    unfold decode_value. rewrite Hzero. reflexivity.
Qed.

End Decoder.

(** *** The theorems at the class as defined, reading plain decimal text *)

Import StatusText.

Lemma translate_mode_unknown_bit_witness :
  8 <= 8 /\ class_ok Thermotron3800Mode /\
  fst (__translate_mode plain_decimal (VInt (2 ^ 8)) Thermotron3800Mode)
  = inr (VFlag UNKNOWN_MODE).
Proof.
  split; [lia|]. split; [exact Thermotron3800Mode_ok|].
  exact (proj2 (proj2
           (translate_mode_unknown_bit plain_decimal 8 Thermotron3800Mode
              ltac:(lia) Thermotron3800Mode_ok))).
Defined.

Lemma translate_mode_known_range_witness :
  class_ok Thermotron3800Mode /\
  fst (__translate_mode plain_decimal (VInt 1) Thermotron3800Mode)
  = inr (VFlag PROGRAM_MODE).
Proof.
  split; [exact Thermotron3800Mode_ok|].
  exact (proj1 (proj2 (translate_mode_known_range plain_decimal
                         Thermotron3800Mode Thermotron3800Mode_ok))).
Defined.

Lemma translate_mode_mixed_bits_witness :
  class_ok Thermotron3800Mode /\
  0 <= 0 < 8 /\ Z.testbit 257 0 = true /\
  8 <= 8 /\ Z.testbit 257 8 = true /\
  fst (__translate_mode plain_decimal (VInt 257) Thermotron3800Mode)
  = inr (VFlag UNKNOWN_MODE).
Proof.
  split; [exact Thermotron3800Mode_ok|]. split; [lia|].
  split; [reflexivity|]. split; [lia|]. split; [reflexivity|].
  exact (proj1 (translate_mode_mixed_bits plain_decimal 257 0 8
                  Thermotron3800Mode Thermotron3800Mode_ok
                  ltac:(lia) eq_refl ltac:(lia) eq_refl)).
Defined.

Lemma translate_mode_zero_witness :
  class_ok Thermotron3800Mode /\
  __translate_mode plain_decimal (VInt 0) Thermotron3800Mode
  = (inr (VFlag UNKNOWN_MODE), Thermotron3800Mode).
Proof.
  split; [exact Thermotron3800Mode_ok|].
  exact (proj2 (translate_mode_zero plain_decimal Thermotron3800Mode
                  Thermotron3800Mode_ok)).
Defined.

Lemma translate_mode_raises_only_in_int_witness :
  class_ok Thermotron3800Mode /\
  plain_decimal "12a" = None /\
  fst (__translate_mode plain_decimal (VStr "12a") Thermotron3800Mode)
  = inl ValueError.
Proof.
  split; [exact Thermotron3800Mode_ok|]. split; [reflexivity|].
  exact (proj1 (proj2 (proj2
           (translate_mode_raises_only_in_int plain_decimal
              Thermotron3800Mode Thermotron3800Mode_ok))) "12a"%string eq_refl).
Defined.

Lemma translate_mode_deterministic_witness :
  class_ok Thermotron3800Mode /\
  class_ok (snd (__translate_mode plain_decimal (VInt 256) Thermotron3800Mode)) /\
  fst (__translate_mode plain_decimal (VStr "3") Thermotron3800Mode)
  = fst (__translate_mode plain_decimal (VStr "3")
           (snd (__translate_mode plain_decimal (VInt 256) Thermotron3800Mode))).
Proof.
  pose proof (translate_mode_deterministic plain_decimal (VInt 256)
                Thermotron3800Mode Thermotron3800Mode
                Thermotron3800Mode_ok Thermotron3800Mode_ok)
    as (_ & _ & Hok & _).
  split; [exact Thermotron3800Mode_ok|]. split; [exact Hok|].
  exact (proj1
           (translate_mode_deterministic plain_decimal (VStr "3")
              Thermotron3800Mode _ Thermotron3800Mode_ok Hok)).
Defined.

Lemma translate_mode_negative_witness :
  -7 < 0 /\ class_ok Thermotron3800Mode /\
  __translate_mode plain_decimal (VInt (-7)) Thermotron3800Mode
  = (inr (VFlag UNKNOWN_MODE), Thermotron3800Mode).
Proof.
  split; [lia|]. split; [exact Thermotron3800Mode_ok|].
  exact (proj2 (proj2
           (translate_mode_negative plain_decimal (-7) Thermotron3800Mode
              ltac:(lia) Thermotron3800Mode_ok))).
Defined.

Lemma translate_mode_never_empty_witness :
  class_ok Thermotron3800Mode /\
  (fold_left fold_value (get_bit_array_from_int 0) 0 = 0 ->
   fst (__translate_mode plain_decimal (VInt 0) Thermotron3800Mode)
   = inr (VFlag UNKNOWN_MODE)).
Proof.
  split; [exact Thermotron3800Mode_ok|].
  exact (proj2 (proj2
           (translate_mode_never_empty plain_decimal 0 Thermotron3800Mode
              Thermotron3800Mode_ok))).
Defined.

(** Claim C7 as stated fails: decoding has a side effect.  The class as
    defined has nothing registered under the value 3; after decoding the
    status code 3 it has, so the run has changed the state of the class. *)
Lemma translate_mode_changes_class :
  _value2member_map_ Thermotron3800Mode !! 3 = None /\
  is_Some (_value2member_map_
             (snd (__translate_mode plain_decimal (VInt 3) Thermotron3800Mode))
           !! 3) /\
  snd (__translate_mode plain_decimal (VInt 3) Thermotron3800Mode)
  <> Thermotron3800Mode.
Proof.
  assert (Hbefore : _value2member_map_ Thermotron3800Mode !! 3 = None)
    by (vm_compute; reflexivity).
  assert (Hafter : is_Some (_value2member_map_
             (snd (__translate_mode plain_decimal (VInt 3) Thermotron3800Mode))
           !! 3))
    by (eexists; vm_compute; reflexivity).
  split; [exact Hbefore|]. split; [exact Hafter|].
  intros Heq. rewrite Heq, Hbefore in Hafter.
  destruct Hafter as [m Hm]. discriminate.
Qed.

End DecoderFacts.

(** ** More on the bit-splitting loop *)

Module BitArrayMore.
Import BitArray BitArrayFacts Positions.

Lemma set_bits_below_ext n n' k :
  (forall i, 0 <= i < Z.of_nat k -> Z.testbit n i = Z.testbit n' i) ->
  set_bits_below n k = set_bits_below n' k.
Proof.
  intros Hbits. induction k as [|k IH]; [reflexivity|].
  rewrite !set_bits_below_S, IH by (intros; apply Hbits; lia).
  rewrite (Hbits (Z.of_nat k)) by lia. reflexivity.
Qed.

(** Scanning further than the highest set bit finds nothing more. *)
Lemma set_bits_below_beyond n (k : nat) :
  0 <= n -> (scan_length n <= k)%nat ->
  set_bits_below n k = set_bits_below n (scan_length n).
Proof.
  intros Hn Hle. induction Hle as [|k Hle IH]; [reflexivity|].
  rewrite set_bits_below_S.
  destruct (Z.testbit n (Z.of_nat k)) eqn:E.
  - apply testbit_scan_length in E; lia.
  - rewrite app_nil_r. exact IH.
Qed.

Lemma set_bits_below_stable n (k : nat) :
  0 <= n < 2 ^ Z.of_nat k ->
  set_bits_below n k = get_bit_array_from_int n.
Proof.
  intros Hn. rewrite get_bit_array_from_int_eq.
  apply set_bits_below_beyond; [lia|].
  destruct (Nat.le_gt_cases (scan_length n) k) as [|Hlt]; [assumption|].
  apply scan_length_spec in Hlt. lia.
Qed.

Lemma or_list_app l x : or_list (l ++ [x]) = Z.lor (or_list l) x.
Proof. unfold or_list. rewrite fold_left_app. reflexivity. Qed.

(** Or-ing the collected bits below position [k] gives the low [k] bits. *)
Lemma or_set_bits_below n k :
  or_list (set_bits_below n k) = n mod 2 ^ Z.of_nat k.
Proof.
  induction k as [|k IH].
  - simpl. rewrite Z.mod_1_r. reflexivity.
  - assert (Hp : 0 < 2 ^ Z.of_nat k) by (apply Z.pow_pos_nonneg; lia).
    pose proof (Z.mod_pos_bound n _ Hp) as Hlow.
    rewrite set_bits_below_S, mod_pow2_succ.
    destruct (Z.testbit n (Z.of_nat k)).
    + rewrite or_list_app, IH.
      apply DecoderFacts.lor_pow2_above; lia.
    + rewrite app_nil_r, IH. lia.
Qed.

(** A bit above all the others is appended to their list. *)
Lemma get_bit_array_from_int_add_high m k :
  0 <= k -> 0 <= m < 2 ^ k ->
  get_bit_array_from_int (m + 2 ^ k) = get_bit_array_from_int m ++ [2 ^ k].
Proof.
  intros Hk Hm.
  assert (Hlog : Z.log2 (m + 2 ^ k) = k).
  { apply Z.log2_unique; [assumption|]. rewrite Z.pow_succ_r by lia. lia. }
  rewrite (get_bit_array_from_int_eq (m + 2 ^ k)). unfold scan_length.
  destruct (Z.leb_spec (m + 2 ^ k) 0); [lia|].
  rewrite Hlog, set_bits_below_S, Z2Nat.id by lia.
  assert (Htop : Z.testbit (m + 2 ^ k) k = true).
  { rewrite <- Hlog at 2. apply Z.bit_log2. lia. }
  rewrite Htop. f_equal.
  rewrite <- (set_bits_below_stable m (Z.to_nat k)) by (rewrite Z2Nat.id; lia).
  apply set_bits_below_ext. intros i Hi. rewrite Z2Nat.id in Hi by lia.
  rewrite <- (Z.mod_pow2_bits_low (m + 2 ^ k) k i) by lia.
  rewrite <- Z.add_mod_idemp_r, Z.mod_same, Z.add_0_r by lia.
  rewrite Z.mod_pow2_bits_low by lia. reflexivity.
Qed.

Lemma sum_powers_app js k :
  sum_list (powers (js ++ [k])) = sum_list (powers js) + 2 ^ k.
Proof.
  unfold powers. rewrite map_app, sum_list_app. simpl. lia.
Qed.

(** Ascending positions below [k] add up to less than [2^k]. *)
Lemma sum_powers_bound js :
  StronglySorted Z.lt js -> Forall (fun j => 0 <= j) js ->
  forall k, 0 <= k -> Forall (fun j => j < k) js ->
  0 <= sum_list (powers js) < 2 ^ k.
Proof.
  induction js as [|j js IH] using rev_ind; intros Hs Hpos k Hk Hlt.
  - simpl. split; [lia|]. apply Z.pow_pos_nonneg; lia.
  - apply StronglySorted_app in Hs as (Hbelow & Hs & _).
    apply Forall_app in Hpos as [Hpos Hj]. apply Forall_app in Hlt as [_ Hjk].
    apply Forall_inv in Hj. apply Forall_inv in Hjk.
    rewrite sum_powers_app.
    assert (Hjs : Forall (fun i => i < j) js).
    { apply Forall_forall. intros i Hi.
      apply Hbelow; [assumption|]. apply list_elem_of_singleton. reflexivity. }
    specialize (IH Hs Hpos j Hj Hjs).
    assert (2 ^ (j + 1) <= 2 ^ k) by (apply Z.pow_le_mono_r; lia).
    rewrite Z.pow_add_r in * by lia. lia.
Qed.

(** X1.  Round trip from bits to integer and back: when ascending,
    non-negative bit positions are turned into powers of two and added up,
    [get_bit_array_from_int] splits the sum into exactly those powers, in
    that order. *)
Theorem get_bit_array_from_int_of_powers (js : list Z) :
  StronglySorted Z.lt js -> Forall (fun j => 0 <= j) js ->
  get_bit_array_from_int (sum_list (powers js)) = powers js.
Proof.
  induction js as [|j js IH] using rev_ind; intros Hs Hpos.
  - reflexivity.
  - pose proof Hs as Hs'. apply StronglySorted_app in Hs' as (Hbelow & Hjs & _).
    pose proof Hpos as Hpos'. apply Forall_app in Hpos' as [Hpjs Hj].
    apply Forall_inv in Hj.
    assert (Hlt : Forall (fun i => i < j) js).
    { apply Forall_forall. intros i Hi.
      apply Hbelow; [assumption|]. apply list_elem_of_singleton. reflexivity. }
    rewrite sum_powers_app.
    rewrite get_bit_array_from_int_add_high
      by (try assumption; now apply sum_powers_bound).
    rewrite IH by assumption.
    unfold powers. rewrite map_app. reflexivity.
Qed.

Lemma get_bit_array_from_int_of_powers_witness :
  StronglySorted Z.lt [0; 3; 9] /\ Forall (fun j => 0 <= j) [0; 3; 9] /\
  get_bit_array_from_int (sum_list (powers [0; 3; 9])) = powers [0; 3; 9].
Proof.
  assert (Hs : StronglySorted Z.lt [0; 3; 9])
    by (repeat constructor; lia).
  assert (Hp : Forall (fun j => 0 <= j) [0; 3; 9])
    by (repeat constructor; lia).
  exact (conj Hs (conj Hp (get_bit_array_from_int_of_powers [0; 3; 9] Hs Hp))).
Defined.

(** X2.  Round trip from integer to bits and back: or-ing the bits returned
    for a non-negative integer gives the integer again, so two non-negative
    integers with the same bit list are equal. *)
Theorem get_bit_array_from_int_or (n : Z) :
  0 <= n ->
  or_list (get_bit_array_from_int n) = n /\
  (forall m, 0 <= m ->
     get_bit_array_from_int m = get_bit_array_from_int n -> m = n).
Proof.
  assert (Hor : forall a, 0 <= a -> or_list (get_bit_array_from_int a) = a).
  { intros a Ha. rewrite get_bit_array_from_int_eq, or_set_bits_below.
    apply Z.mod_small. split; [assumption|]. now apply scan_length_covers. }
  intros Hn. split; [now apply Hor|].
  intros m Hm Heq. rewrite <- (Hor m), <- (Hor n), Heq by assumption.
  reflexivity.
Qed.

Lemma get_bit_array_from_int_or_witness :
  0 <= 300 /\ or_list (get_bit_array_from_int 300) = 300.
Proof.
  split; [lia|].
  exact (proj1 (get_bit_array_from_int_or 300 ltac:(lia))).
Defined.

(** X3.  Bounds on the result for a positive input: the list is not empty
    and ends with the highest set bit [2^(log2 n)]; it has at most
    [log2 n + 1] elements; every element lies between 1 and the input and is
    a bit of the input; two different elements share no bit. *)
Theorem get_bit_array_from_int_bounds (n : Z) :
  0 < n ->
  get_bit_array_from_int n <> [] /\
  last (get_bit_array_from_int n) = Some (2 ^ Z.log2 n) /\
  Z.of_nat (length (get_bit_array_from_int n)) <= Z.log2 n + 1 /\
  Forall (fun x => 1 <= x <= n /\ Z.land n x = x) (get_bit_array_from_int n) /\
  (forall x y,
     In x (get_bit_array_from_int n) -> In y (get_bit_array_from_int n) ->
     x <> y -> Z.land x y = 0).
Proof.
  intros Hn. pose proof (Z.log2_nonneg n) as Hlog.
  assert (Hlen : scan_length n = S (Z.to_nat (Z.log2 n))).
  { unfold scan_length. destruct (Z.leb_spec n 0); [lia|reflexivity]. }
  assert (Hsplit : get_bit_array_from_int n =
                   set_bits_below n (Z.to_nat (Z.log2 n)) ++ [2 ^ Z.log2 n]).
  { rewrite get_bit_array_from_int_eq, Hlen, set_bits_below_S.
    rewrite Z2Nat.id, Z.bit_log2 by lia. reflexivity. }
  split; [|split; [|split; [|split]]].
  - rewrite Hsplit. intros H. now apply app_eq_nil in H as [_ H].
  - rewrite Hsplit. apply last_snoc.
  - rewrite get_bit_array_from_int_eq, Hlen. unfold set_bits_below, positions.
    rewrite length_map.
    pose proof (filter_length_le (Z.testbit n)
                  (map Z.of_nat (seq 0 (S (Z.to_nat (Z.log2 n)))))) as Hle.
    rewrite length_map, length_seq in Hle. lia.
  - apply Forall_forall. intros x Hx%list_elem_of_In.
    rewrite get_bit_array_from_int_eq in Hx.
    apply In_set_bits_below in Hx as (i & Hi & Hbit & ->).
    assert (0 < 2 ^ i) by (apply Z.pow_pos_nonneg; lia).
    split.
    + split; [lia|].
      rewrite <- (Z2Nat.id i) by lia. apply scan_length_spec. lia.
    + rewrite land_pow2, Hbit by lia. reflexivity.
  - intros x y Hx Hy Hxy. rewrite get_bit_array_from_int_eq in Hx, Hy.
    apply In_set_bits_below in Hx as (i & Hi & _ & ->).
    apply In_set_bits_below in Hy as (j & Hj & _ & ->).
    rewrite land_pow2 by lia.
    rewrite Z.pow2_bits_false; [reflexivity|]. intros ->. contradiction.
Qed.

Lemma get_bit_array_from_int_bounds_witness :
  0 < 300 /\ last (get_bit_array_from_int 300) = Some (2 ^ Z.log2 300).
Proof.
  split; [lia|].
  exact (proj1 (proj2 (get_bit_array_from_int_bounds 300 ltac:(lia)))).
Defined.

End BitArrayMore.

(** ** More on the decoder *)

Module DecoderMore.
Import Py Enum BitArray Thermotron3800 BitArrayFacts EnumFacts DecoderFacts.

Lemma fold_value_swap a x y :
  fold_value (fold_value a x) y = fold_value (fold_value a y) x.
Proof.
  unfold fold_value. rewrite <- !Z.lor_assoc. f_equal. apply Z.lor_comm.
Qed.

Lemma fold_value_Permutation l l' :
  Permutation l l' ->
  forall a, fold_left fold_value l a = fold_left fold_value l' a.
Proof.
  induction 1 as [|x l l' _ IH|x y l|l1 l2 l3 _ IH1 _ IH2]; intros a.
  - reflexivity.
  - cbn [fold_left]. apply IH.
  - cbn [fold_left]. rewrite fold_value_swap. reflexivity.
  - rewrite IH1. apply IH2.
Qed.

Lemma outcome_value v m :
  (inr (VFlag (instance_of v)) : exn + value) = inr (VFlag m) ->
  v = _value_ m.
Proof.
  intros H.
  apply (f_equal (fun r : exn + value =>
                    match r with inr (VFlag f) => _value_ f | _ => 0 end)) in H.
  exact H.
Qed.

Lemma decode_value_range n :
  (~ (1 <= n <= 255) /\ decode_value n = -1) \/
  (1 <= n <= 255 /\ decode_value n = n).
Proof.
  rewrite decode_value_eq.
  destruct (Z.leb_spec 1 n); destruct (Z.ltb_spec n 256); cbn [andb];
    (left; split; [lia|reflexivity]) || (right; split; [lia|reflexivity]).
Qed.

Section Decoder.

Variable int_of_str : string -> option Z.

(** X4.  Which status codes are reported as unknown: on an integer the
    decoder returns [UNKNOWN_MODE] exactly when the integer is not between 1
    and 255; in particular every code from 256 on is unknown, whichever bits
    it has. *)
Theorem translate_mode_unknown_iff (n : Z) (c : EnumClass) :
  class_ok c ->
  (fst (__translate_mode int_of_str (VInt n) c) = inr (VFlag UNKNOWN_MODE)
   <-> ~ (1 <= n <= 255)) /\
  (256 <= n ->
   fst (__translate_mode int_of_str (VInt n) c) = inr (VFlag UNKNOWN_MODE)).
Proof.
  intros Hc. rewrite translate_mode_value by assumption.
  assert (Hout : ~ (1 <= n <= 255) ->
                 inr (VFlag (instance_of (decode_value n)))
                 = (inr (VFlag UNKNOWN_MODE) : exn + value)).
  { intros Hn. destruct (decode_value_range n) as [[_ ->]|[Hin _]];
      [reflexivity|contradiction]. }
  split; [split|].
  - intros H%outcome_value Hn. cbn [_value_ UNKNOWN_MODE] in H.
    destruct (decode_value_range n) as [[E _]|[_ E]]; [contradiction|lia].
  - exact Hout.
  - intros Hn. apply Hout. lia.
Qed.

(** X5.  Valid status codes are told apart: two codes between 1 and 255
    that decode to the same flag are the same code, whatever pseudo-members
    the class holds at the time of either run. *)
Theorem translate_mode_injective (n1 n2 : Z) (c1 c2 : EnumClass) :
  class_ok c1 -> class_ok c2 ->
  1 <= n1 <= 255 -> 1 <= n2 <= 255 ->
  fst (__translate_mode int_of_str (VInt n1) c1)
  = fst (__translate_mode int_of_str (VInt n2) c2) ->
  n1 = n2.
Proof.
  intros H1 H2 Hn1 Hn2. rewrite !translate_mode_value by assumption.
  intros H%outcome_value. cbn [_value_ instance_of] in H.
  destruct (decode_value_range n1) as [[? _]|[_ E1]]; [contradiction|].
  destruct (decode_value_range n2) as [[? _]|[_ E2]]; [contradiction|].
  lia.
Qed.

(** X6.  Whether the decoded flag is a member of the class: the test
    [flag in Thermotron3800Mode] on the flag returned for an integer holds
    exactly when the integer is one of the eight single mode bits or lies
    outside 1..255 (the flag is then [UNKNOWN_MODE]); for a code that
    combines several modes the flag is a combination, not a member defined
    in the class body, and the test fails. *)
Theorem translate_mode_result_in_class (n : Z) (c : EnumClass) :
  class_ok c ->
  exists m c' b,
    __translate_mode int_of_str (VInt n) c = (inr (VFlag m), c') /\
    fst (contains (VFlag m) c') = inr b /\
    (b = true <->
     ~ (1 <= n <= 255) \/ In n [1; 2; 4; 8; 16; 32; 64; 128]).
Proof.
  intros Hc.
  destruct (translate_mode_int int_of_str n c Hc) as (c' & Hrun & Hc' & _).
  destruct (contains_instance (decode_value n) c' Hc') as (c'' & Hin & _).
  exists (instance_of (decode_value n)), c', (is_named (decode_value n)).
  split; [exact Hrun|]. split; [rewrite Hin; reflexivity|].
  rewrite is_named_spec.
  destruct (decode_value_range n) as [[Hout ->]|[Hn ->]].
  - split; [auto|]. intros _. cbn [In]. auto 12.
  - cbn [In]. split.
    + intros H. right. repeat (destruct H as [H|H]; [auto 12|]);
        [lia|contradiction].
    + intros [H|H]; [contradiction|].
      repeat (destruct H as [H|H]; [auto 12|]). contradiction.
Qed.

(** X7.  Decoding is idempotent on its own results: the flag returned for
    an integer is an [int], and handing it back to [__translate_mode]
    returns the same flag. *)
Theorem translate_mode_idempotent (n : Z) (c : EnumClass) :
  class_ok c ->
  exists v c',
    __translate_mode int_of_str (VInt n) c = (inr v, c') /\
    fst (__translate_mode int_of_str v c') = inr v.
Proof.
  intros Hc.
  destruct (translate_mode_int int_of_str n c Hc) as (c' & Hrun & Hc' & _).
  exists (VFlag (instance_of (decode_value n))), c'.
  split; [exact Hrun|].
  destruct (translate_mode_run int_of_str
              (VFlag (instance_of (decode_value n))) c' Hc')
    as (c'' & _ & _ & -> & _).
  cbn [fst int mret M_ret _value_ instance_of].
  replace (decode_value (decode_value n)) with (decode_value n); [reflexivity|].
  destruct (decode_value_range n) as [[_ ->]|[Hn ->]].
  - destruct (decode_value_range (-1)) as [[_ ->]|[? _]]; [reflexivity|lia].
  - destruct (decode_value_range n) as [[? _]|[_ ->]];
      [contradiction|reflexivity].
Qed.

End Decoder.

Lemma translate_mode_unknown_iff_witness :
  class_ok Thermotron3800Mode /\
  fst (__translate_mode StatusText.plain_decimal (VInt 768) Thermotron3800Mode)
  = inr (VFlag UNKNOWN_MODE).
Proof.
  split; [exact Thermotron3800Mode_ok|].
  exact (proj2 (translate_mode_unknown_iff StatusText.plain_decimal 768 Thermotron3800Mode
                  Thermotron3800Mode_ok) ltac:(lia)).
Defined.

Lemma translate_mode_injective_witness :
  class_ok Thermotron3800Mode /\ 1 <= 5 <= 255 /\
  (fst (__translate_mode StatusText.plain_decimal (VInt 5) Thermotron3800Mode)
   = fst (__translate_mode StatusText.plain_decimal (VInt 5) Thermotron3800Mode)
   -> 5 = 5).
Proof.
  split; [exact Thermotron3800Mode_ok|]. split; [lia|].
  exact (translate_mode_injective StatusText.plain_decimal 5 5
           Thermotron3800Mode Thermotron3800Mode
           Thermotron3800Mode_ok Thermotron3800Mode_ok
           ltac:(lia) ltac:(lia)).
Defined.

Lemma translate_mode_result_in_class_witness :
  class_ok Thermotron3800Mode /\
  exists m c' b,
    __translate_mode StatusText.plain_decimal (VInt 3) Thermotron3800Mode
    = (inr (VFlag m), c') /\
    fst (contains (VFlag m) c') = inr b /\
    (b = true <->
     ~ (1 <= 3 <= 255) \/ In 3 [1; 2; 4; 8; 16; 32; 64; 128]).
Proof.
  split; [exact Thermotron3800Mode_ok|].
  exact (translate_mode_result_in_class StatusText.plain_decimal 3
           Thermotron3800Mode Thermotron3800Mode_ok).
Defined.

Lemma translate_mode_idempotent_witness :
  class_ok Thermotron3800Mode /\
  exists v c',
    __translate_mode StatusText.plain_decimal (VInt 129) Thermotron3800Mode
    = (inr v, c') /\
    fst (__translate_mode StatusText.plain_decimal v c') = inr v.
Proof.
  split; [exact Thermotron3800Mode_ok|].
  exact (translate_mode_idempotent StatusText.plain_decimal 129
           Thermotron3800Mode Thermotron3800Mode_ok).
Defined.

(** X8.  The order of the bits does not matter to the [for] loop of
    [__translate_mode]: run over two lists of bits that are permutations of
    each other, from [mode = 0] and in any good states of the class, it
    leaves the same [mode]. *)
Theorem translate_loop_order_irrelevant (bits bits' : list Z)
    (c c' : EnumClass) :
  Permutation bits bits' -> class_ok c -> class_ok c' ->
  fst (for_each bits translate_bit (VInt 0) c)
  = fst (for_each bits' translate_bit (VInt 0) c').
Proof.
  intros Hp Hc Hc'.
  destruct (for_each_bits bits c Hc) as (c1 & -> & _).
  destruct (for_each_bits bits' c' Hc') as (c2 & -> & _).
  cbn [fst]. f_equal.
  destruct bits as [|b bits], bits' as [|b' bits'].
  - reflexivity.
  - apply Permutation_nil in Hp. discriminate.
  - symmetry in Hp. apply Permutation_nil in Hp. discriminate.
  - unfold mode_after. rewrite (fold_value_Permutation _ _ Hp). reflexivity.
Qed.

Lemma translate_loop_order_irrelevant_witness :
  Permutation [1; 4; 512] [512; 1; 4] /\
  class_ok Thermotron3800Mode /\
  fst (for_each [1; 4; 512] translate_bit (VInt 0) Thermotron3800Mode)
  = fst (for_each [512; 1; 4] translate_bit (VInt 0) Thermotron3800Mode).
Proof.
  assert (Hp : Permutation [1; 4; 512] [512; 1; 4]).
  { apply Permutation_sym.
    apply (Permutation_cons_app [1; 4] [] 512 (Permutation_refl _)). }
  split; [exact Hp|]. split; [exact Thermotron3800Mode_ok|].
  exact (translate_loop_order_irrelevant _ _ Thermotron3800Mode
           Thermotron3800Mode Hp Thermotron3800Mode_ok Thermotron3800Mode_ok).
Defined.

(** X9.  Once [mode] is [UNKNOWN_MODE] it stays so: from
    [mode = UNKNOWN_MODE] the [for] loop ends with [UNKNOWN_MODE] whatever
    bits follow, known or not, and raises nothing. *)
Theorem translate_loop_unknown_absorbs (bits : list Z) (c : EnumClass) :
  class_ok c ->
  fst (for_each bits translate_bit (VFlag UNKNOWN_MODE) c)
  = inr (VFlag UNKNOWN_MODE).
Proof.
  intros Hc.
  destruct (for_each_flag bits (-1) c Hc) as (c' & Hrun & _).
  change (instance_of (-1)) with UNKNOWN_MODE in Hrun.
  rewrite Hrun, fold_value_m1. reflexivity.
Qed.

Lemma translate_loop_unknown_absorbs_witness :
  class_ok Thermotron3800Mode /\
  fst (for_each [1; 2; 1024] translate_bit (VFlag UNKNOWN_MODE)
         Thermotron3800Mode)
  = inr (VFlag UNKNOWN_MODE).
Proof.
  split; [exact Thermotron3800Mode_ok|].
  exact (translate_loop_unknown_absorbs [1; 2; 1024] Thermotron3800Mode
           Thermotron3800Mode_ok).
Defined.

End DecoderMore.

(** ** The commands of the driver *)

Module DriverFacts.
Import Driver.

Section Transport.

Variable adapter : Type.
Variable io_error : Type.
Variable Instrument_write : string -> adapter -> (io_error + unit) * adapter.

#[local] Abbreviation write := (write adapter io_error Instrument_write).
#[local] Abbreviation invoke := (invoke adapter io_error Instrument_write).
#[local] Abbreviation invoke_all := (invoke_all adapter io_error Instrument_write).
#[local] Abbreviation send_all := (send_all adapter io_error Instrument_write).

Lemma invoke_write m o : invoke m o = write (command_of m) o.
Proof. destruct m; reflexivity. Qed.

(** X10.  What a sequence of [run], [stop] and [initalize_oven] calls does:
    the connection is handed [RUNM], [STOP] and [INIT] in the order of the
    calls, up to the first write that raises; the driver sleeps one second
    for each write that returned and not after the one that raised, so after
    a sequence without exception it has slept as many seconds as there were
    calls. *)
Theorem invoke_all_sends (ms : list method) (a : adapter) (t : Z) :
  let '(r, a', sent) := send_all (map command_of ms) a in
  invoke_all ms (Oven adapter a t) = (r, Oven adapter a' (t + sent)) /\
  0 <= sent <= Z.of_nat (length ms) /\
  (r = inr tt -> sent = Z.of_nat (length ms)) /\
  (forall e, r = inl e -> sent < Z.of_nat (length ms)).
Proof.
  revert a t. induction ms as [|m ms IH]; intros a t.
  - cbn. rewrite Z.add_0_r. repeat split; try lia. discriminate.
  - cbn [map send_all Driver.send_all invoke_all Driver.invoke_all length].
    rewrite invoke_write. unfold Driver.write. cbn [connection slept].
    destruct (Instrument_write (command_of m) a) as [[e|[]] a1].
    + rewrite Z.add_0_r. repeat split; try lia. discriminate.
    + specialize (IH a1 (t + 1)).
      destruct (send_all (map command_of ms) a1) as [[r a2] sent].
      destruct IH as (Hrun & Hsent & Hok & Herr).
      rewrite Hrun, Nat2Z.inj_succ.
      replace (t + 1 + sent) with (t + (sent + 1)) by lia.
      repeat split; try lia.
      * intros Hr. specialize (Hok Hr). lia.
      * intros e Hr. specialize (Herr e Hr). lia.
Qed.

End Transport.

(** The theorem on a connection that records what it is handed. *)
Lemma invoke_all_sends_witness :
  Driver.invoke_all (list string) Empty_set
    (fun command log => (inr tt, log ++ [command]))
    [Initalize_oven; Run; Stop] (Oven _ [] 0)
  = (inr tt, Oven _ ["INIT"; "RUNM"; "STOP"]%string 3).
Proof.
  exact (proj1 (invoke_all_sends (list string) Empty_set
                  (fun command log => (inr tt, log ++ [command]))
                  [Initalize_oven; Run; Stop] [] 0)).
Defined.

End DriverFacts.
